(** * RevealSlidingDirective: swipe emulation on a sliding list item

    A shallow embedding of [src/directives/reveal-sliding.directive.ts].

    The directive is attached to an [ion-item-sliding] host.  After the view
    is built it checks its host, derives a swipe direction from the first
    nested [ion-item-options], looks up the element marked
    [appRevealSlidingButton] and registers a click listener on it.  Each click
    starts a chain of [setTimeout] callbacks; every callback synthesises one
    touch or mouse event on the host and schedules the next callback.

    Modelling choices.
    - The methods of the class are functions in a state-and-exception monad
      [M] over [State], which holds the fields of the directive instance and
      the part of the browser the code writes to (registered listeners, the
      timer queue, the console, the events handed to [dispatchEvent]).
    - What the code reads from the browser while a timer callback runs (the
      bounding box of the host, whether [Touch] and [TouchEvent] are defined,
      the clock, and which platform calls throw) is a [Platform] snapshot.
    - The event loop is explicit: an [Input] is either the arrival of a
      click event at an element or the expiry of the oldest pending timer,
      the latter carrying the snapshot seen by its callback.  The only [setTimeout] of the class
      uses one fixed delay, so timers expire in the order they were
      registered and the queue is first-in first-out.
    - A pixel coordinate is a [number]: a binary64 floating-point value, as
      every JavaScript number is, with the additions, subtractions and
      multiplications of the code rounded to nearest.  The step index is an
      integer in [Z], turned into a [number] where the code multiplies it;
      the two agree for every index below 2^53 in magnitude, and the
      indices of a run are 0 to 5.  Integer literals handed on unchanged
      (delay, button, rotation angle) are in [Z], the three non-integral
      literals of the touch shape are rationals in [Q].
    - A [Click] is the arrival of a click event at one element, be it the
      element clicked or an ancestor reached by bubbling; a click of the
      user is the sequence of these arrivals along the propagation path. *)

From Stdlib Require Import ZArith List String Bool QArith Qpower Lia.
From Stdlib Require Import SpecFloat.
Import ListNotations.
Local Open Scope string_scope.
Local Open Scope list_scope.
Local Open Scope Z_scope.

(** ** Values *)

(** A DOM element, by identity. *)
Definition Element := nat.
Bind Scope nat_scope with Element.

(** [enum SwipeDirection { toLeft = 0, toRight }] *)
Inductive SwipeDirection := toLeft | toRight.

Definition SwipeDirection_value (d : SwipeDirection) : Z :=
  match d with toLeft => 0 | toRight => 1 end.

(** The [IonItemSliding] component found by [@ContentChild]; the directive
    only tests it for presence. *)
Inductive IonItemSliding := IonItemSlidingRef (host : Element).

(** An [IonItemOptions] component; the directive reads its [side]. *)
Record IonItemOptions := { side : string }.

(** A JavaScript number of the coordinate arithmetic: a binary64 float. *)
Definition number : Type := spec_float.

(** The number nearest to an integer. *)
Definition number_of_Z (z : Z) : number := binary_normalize 53 1024 z 0 false.

(** [x + y], [x - y] and [x * y] on numbers. *)
Definition number_add : number -> number -> number := SFadd 53 1024.
Definition number_sub : number -> number -> number := SFsub 53 1024.
Definition number_mul : number -> number -> number := SFmul 53 1024.

(** The part of a [DOMRect] that the directive reads. *)
Record DOMRect := { rect_top : number; rect_left : number; rect_right : number }.

(** The dictionary passed to [new Touch(...)]. *)
Record Touch := {
  identifier : Z;
  target : Element;
  clientX : number;
  clientY : number;
  radiusX : Q;
  radiusY : Q;
  rotationAngle : Z;
  force : Q
}.

(** The dictionary passed to [new TouchEvent(type, ...)]. *)
Record TouchEventInit := {
  cancelable : bool;
  bubbles : bool;
  touches : list Touch;
  targetTouches : list Touch;
  changedTouches : list Touch;
  shiftKey : bool
}.

(** The [view] argument of [initMouseEvent]. *)
Inductive View := window.

(** The arguments of [initMouseEvent], in order, after the event type. *)
Record MouseEventArgs := {
  canBubbleArg : bool;
  cancelableArg : bool;
  viewArg : View;
  detailArg : Z;
  screenXArg : Z;
  screenYArg : Z;
  clientXArg : number;
  clientYArg : number;
  ctrlKeyArg : bool;
  altKeyArg : bool;
  shiftKeyArg : bool;
  metaKeyArg : bool;
  buttonArg : Z;
  relatedTargetArg : option Element
}.

Inductive Event :=
| TouchEvent (type : string) (init : TouchEventInit)
| MouseEvent (type : string) (args : MouseEventArgs).

(** The platform calls made by the two synthesizers. *)
Inductive ApiCall :=
| NewTouch | NewTouchEvent | CreateEvent | InitMouseEvent | DispatchEvent.

(** A thrown value: an [Error] built by the directive, or the exception of a
    platform call. *)
Inductive Exn :=
| Error (message : string)
| PlatformExn (call : ApiCall).

Inductive ConsoleEntry :=
| Warn (message : string)          (* console.warn *)
| ErrorLog (e : Exn)               (* console.error *)
| Uncaught (e : Exn).              (* exception that escaped a task *)

(** The closure passed to [renderer.listen]: [() => { this.sendEvents(0); }] *)
Inductive Handler := RevealClick.

(** The closure passed to [setTimeout] by [sendEvents]; it captures [index]
    and [maxIterations]. *)
Inductive Callback := SendEventsStep (index maxIterations : Z).

Record Listener := {
  l_target : Element;
  l_event : string;
  l_handler : Handler
}.

Record Timer := { t_callback : Callback; t_delay : Z }.

(** What a timer callback reads from the browser while it runs. *)
Record Platform := {
  typeofTouch : bool;             (* typeof Touch !== 'undefined' *)
  typeofTouchEvent : bool;        (* typeof TouchEvent !== 'undefined' *)
  boundingClientRect : DOMRect;   (* el.getBoundingClientRect() *)
  dateNow : Z;                    (* Date.now() *)
  throws : ApiCall -> bool        (* the platform call raises an exception *)
}.

(** ** State *)

Record State := {
  (* the directive instance *)
  itemSliding : option IonItemSliding;
  itemOptionsList : list IonItemOptions;
  revealButton : option Element;
  swipeDirection : option SwipeDirection;
  nativeElement : Element;
  querySelector : string -> option Element;
  (* the browser *)
  listeners : list Listener;
  timers : list Timer;
  console : list ConsoleEntry;
  dispatched : list (Element * Event)
}.

Definition set_revealButton (b : option Element) (s : State) : State :=
  {| itemSliding := itemSliding s; itemOptionsList := itemOptionsList s;
     revealButton := b; swipeDirection := swipeDirection s;
     nativeElement := nativeElement s; querySelector := querySelector s;
     listeners := listeners s; timers := timers s; console := console s;
     dispatched := dispatched s |}.

Definition set_swipeDirection (d : option SwipeDirection) (s : State) : State :=
  {| itemSliding := itemSliding s; itemOptionsList := itemOptionsList s;
     revealButton := revealButton s; swipeDirection := d;
     nativeElement := nativeElement s; querySelector := querySelector s;
     listeners := listeners s; timers := timers s; console := console s;
     dispatched := dispatched s |}.

Definition set_listeners (l : list Listener) (s : State) : State :=
  {| itemSliding := itemSliding s; itemOptionsList := itemOptionsList s;
     revealButton := revealButton s; swipeDirection := swipeDirection s;
     nativeElement := nativeElement s; querySelector := querySelector s;
     listeners := l; timers := timers s; console := console s;
     dispatched := dispatched s |}.

Definition set_timers (t : list Timer) (s : State) : State :=
  {| itemSliding := itemSliding s; itemOptionsList := itemOptionsList s;
     revealButton := revealButton s; swipeDirection := swipeDirection s;
     nativeElement := nativeElement s; querySelector := querySelector s;
     listeners := listeners s; timers := t; console := console s;
     dispatched := dispatched s |}.

Definition set_console (c : list ConsoleEntry) (s : State) : State :=
  {| itemSliding := itemSliding s; itemOptionsList := itemOptionsList s;
     revealButton := revealButton s; swipeDirection := swipeDirection s;
     nativeElement := nativeElement s; querySelector := querySelector s;
     listeners := listeners s; timers := timers s; console := c;
     dispatched := dispatched s |}.

Definition set_dispatched (d : list (Element * Event)) (s : State) : State :=
  {| itemSliding := itemSliding s; itemOptionsList := itemOptionsList s;
     revealButton := revealButton s; swipeDirection := swipeDirection s;
     nativeElement := nativeElement s; querySelector := querySelector s;
     listeners := listeners s; timers := timers s; console := console s;
     dispatched := d |}.

(** ** The monad of the methods: state, and a completion that is normal or
    abrupt.  State changes made before a [throw] persist. *)

Inductive Completion (A : Type) :=
| Normal (a : A)
| Throw (e : Exn).
Arguments Normal {A} a.
Arguments Throw {A} e.

Definition M (A : Type) : Type := State -> Completion A * State.

Definition ret {A} (a : A) : M A := fun s => (Normal a, s).

Definition bind {A B} (m : M A) (k : A -> M B) : M B :=
  fun s =>
    match m s with
    | (Normal a, s') => k a s'
    | (Throw e, s') => (Throw e, s')
    end.

Definition throw {A} (e : Exn) : M A := fun s => (Throw e, s).

(** [try { body } catch (e) { handler(e) }] *)
Definition try_catch {A} (body : M A) (handler : Exn -> M A) : M A :=
  fun s =>
    match body s with
    | (Normal a, s') => (Normal a, s')
    | (Throw e, s') => handler e s'
    end.

Definition get : M State := fun s => (Normal s, s).

Definition modify (f : State -> State) : M unit := fun s => (Normal tt, f s).

(** [if (c) { m }] with no [else] branch. *)
Definition when (c : bool) (m : M unit) : M unit := if c then m else ret tt.

Declare Scope js_scope.
Delimit Scope js_scope with js.
Notation "x <- m ;; k" := (bind m (fun x => k))
  (at level 61, m at next level, right associativity) : js_scope.
Notation "m ;; k" := (bind m (fun _ => k))
  (at level 61, right associativity) : js_scope.
Local Open Scope js_scope.

(** ** Browser primitives *)

Definition console_warn (message : string) : M unit :=
  modify (fun s => set_console (console s ++ [Warn message]) s).

Definition console_error (e : Exn) : M unit :=
  modify (fun s => set_console (console s ++ [ErrorLog e]) s).

(** [renderer.listen(target, eventName, callback)] *)
Definition renderer_listen (tgt : Element) (eventName : string) (h : Handler)
  : M unit :=
  modify (fun s =>
    set_listeners
      (listeners s ++ [{| l_target := tgt; l_event := eventName; l_handler := h |}])
      s).

(** [setTimeout(callback, delay)] *)
Definition setTimeout (cb : Callback) (delay : Z) : M unit :=
  modify (fun s =>
    set_timers (timers s ++ [{| t_callback := cb; t_delay := delay |}]) s).

(** A platform call that may raise. *)
Definition platform_call {A} (w : Platform) (c : ApiCall) (result : A) : M A :=
  if throws w c then throw (PlatformExn c) else ret result.

(** [new Touch(init)] *)
Definition new_Touch (w : Platform) (init : Touch) : M Touch :=
  platform_call w NewTouch init.

(** [new TouchEvent(type, init)] *)
Definition new_TouchEvent (w : Platform) (type : string) (init : TouchEventInit)
  : M Event :=
  platform_call w NewTouchEvent (TouchEvent type init).

(** [document.createEvent(interface)] *)
Definition document_createEvent (w : Platform) (interface : string) : M unit :=
  platform_call w CreateEvent tt.

(** [event.initMouseEvent(type, ...)] *)
Definition initMouseEvent (w : Platform) (type : string) (args : MouseEventArgs)
  : M Event :=
  platform_call w InitMouseEvent (MouseEvent type args).

(** [element.dispatchEvent(event)]: the event reaches the element unless the
    call raises. *)
Definition dispatchEvent (w : Platform) (element : Element) (event : Event)
  : M unit :=
  platform_call w DispatchEvent tt ;;
  modify (fun s => set_dispatched (dispatched s ++ [(element, event)]) s).

(** [array[i]]; reading past the end yields [undefined], which an event
    constructor turns into the type ["undefined"]. *)
Definition array_get (a : list string) (i : nat) : string :=
  nth i a "undefined".

(** ** The directive *)

(** [supportTouchEvent()] *)
Definition supportTouchEvent (w : Platform) : bool :=
  typeofTouch w && typeofTouchEvent w.

(** [sendTouchEvent(element, eventType, x, y)] *)
Definition sendTouchEvent (w : Platform) (element : Element)
    (eventType : string) (x y : number) : M unit :=
  try_catch
    (touch <- new_Touch w
       {| identifier := dateNow w;
          target := element;
          clientX := x;
          clientY := y;
          radiusX := (5 # 2)%Q;
          radiusY := (5 # 2)%Q;
          rotationAngle := 10;
          force := (1 # 2)%Q |} ;;
     let touchList := [touch] in
     touchEvent <- new_TouchEvent w eventType
       {| cancelable := true;
          bubbles := true;
          touches := touchList;
          targetTouches := [];
          changedTouches := touchList;
          shiftKey := true |} ;;
     dispatchEvent w element touchEvent)
    (fun e => console_error e).

(** [sendMouseEvent(element, eventType, x, y)] *)
Definition sendMouseEvent (w : Platform) (element : Element)
    (eventType : string) (x y : number) : M unit :=
  document_createEvent w "MouseEvent" ;;
  event <- initMouseEvent w eventType
    {| canBubbleArg := true;
       cancelableArg := true;
       viewArg := window;
       detailArg := 0;
       screenXArg := 0;
       screenYArg := 0;
       clientXArg := x;
       clientYArg := y;
       ctrlKeyArg := false;
       altKeyArg := false;
       shiftKeyArg := false;
       metaKeyArg := false;
       buttonArg := 0;
       relatedTargetArg := None |} ;;
  dispatchEvent w element event.

Definition mouseEvents : list string := ["mousedown"; "mouseup"; "mousemove"].
Definition touchEvents : list string := ["touchstart"; "touchend"; "touchmove"].

(** [sendEventsDispatcher(index, maxIterations)] *)
Definition sendEventsDispatcher (w : Platform) (index maxIterations : Z)
  : M unit :=
  let eventTypes := if supportTouchEvent w then touchEvents else mouseEvents in
  let dispatcher :=
    if supportTouchEvent w then sendTouchEvent w else sendMouseEvent w in
  this <- get ;;
  let el := nativeElement this in
  let rect := boundingClientRect w in
  let xStep := number_of_Z 50 in
  let yOffset := number_of_Z 10 in
  let y := number_add (rect_top rect) yOffset in
  let x :=
    match swipeDirection this with
    | Some toRight =>
        number_add (rect_left rect) (number_mul (number_of_Z index) xStep)
    | _ =>
        number_sub (rect_right rect) (number_mul (number_of_Z index) xStep)
    end in
  if index =? 0 then
    dispatcher el (array_get eventTypes 0) x y
  else if index =? maxIterations - 1 then
    dispatcher el (array_get eventTypes 1) x y
  else
    dispatcher el (array_get eventTypes 2) x y.

(** [const maxIterations = 5] of [sendEvents]. *)
Definition maxIterations : Z := 5.

(** [sendEvents(index)]: the recursion of the source goes through the timer
    queue; the scheduled closure is [SendEventsStep], run by [callback]. *)
Definition sendEvents (index : Z) : M unit :=
  if index =? maxIterations then
    ret tt
  else
    setTimeout (SendEventsStep index maxIterations) 10.

(** The body of the closure given to [setTimeout]:
    [this.sendEventsDispatcher(index, maxIterations); this.sendEvents(++index);] *)
Definition callback (w : Platform) (cb : Callback) : M unit :=
  match cb with
  | SendEventsStep index maxIterations =>
      sendEventsDispatcher w index maxIterations ;;
      sendEvents (index + 1)
  end.

(** The body of the closure given to [renderer.listen]. *)
Definition handler (h : Handler) : M unit :=
  match h with
  | RevealClick => sendEvents 0
  end.

(** [selfCheck()] *)
Definition selfCheck : M unit :=
  this <- get ;;
  when (match itemSliding this with None => true | Some _ => false end)
    (throw (Error "RevealSlidingDirective: Missing ion-item-sliding node")) ;;
  when (1 <? Z.of_nat (List.length (itemOptionsList this)))
    (console_warn
       "RevealSlidingDirective: Processing only a one ion-item-options element") ;;
  when (Z.of_nat (List.length (itemOptionsList this)) =? 0)
    (console_warn "RevealSlidingDirective: Missing ion-item-options element").

(** [init()]; [QueryList.first] is the head of the list, if any. *)
Definition init : M unit :=
  this <- get ;;
  let itemOption := hd_error (itemOptionsList this) in
  match itemOption with
  | Some o =>
      modify (set_swipeDirection
                (Some (if String.eqb (side o) "start" then toRight else toLeft)))
  | None =>
      modify (set_swipeDirection (Some toLeft))
  end ;;
  let button := querySelector this "ion-item *[appRevealSlidingButton]" in
  modify (set_revealButton button) ;;
  match button with
  | None =>
      console_warn
        "RevealSlidingDirective: appRevealSlidingButton attribute is missed"
  | Some b =>
      renderer_listen b "click" RevealClick
  end.

(** [ngAfterViewInit()] *)
Definition ngAfterViewInit : M unit :=
  selfCheck ;;
  init.

(** ** The event loop *)

(** A task runs to completion; an exception that escapes it is reported and
    the loop goes on. *)
Definition run_task (m : M unit) (s : State) : State :=
  match m s with
  | (Normal _, s') => s'
  | (Throw e, s') => set_console (console s' ++ [Uncaught e]) s'
  end.

(** A click event arrives at an element, as its target or while bubbling up
    from a descendant; or the oldest pending timer expires. *)
Inductive Input :=
| Click (tgt : Element)
| Timeout (w : Platform).

Definition listens (tgt : Element) (eventName : string) (l : Listener) : bool :=
  Nat.eqb (l_target l) tgt && String.eqb (l_event l) eventName.

(** A click event arriving at an element runs, in registration order, the
    click listeners registered on that element. *)
Definition click (tgt : Element) (s : State) : State :=
  fold_left
    (fun s' l => if listens tgt "click" l then run_task (handler (l_handler l)) s'
                 else s')
    (listeners s) s.

(** The oldest timer leaves the queue and its callback runs. *)
Definition timeout (w : Platform) (s : State) : State :=
  match timers s with
  | [] => s
  | t :: rest => run_task (callback w (t_callback t)) (set_timers rest s)
  end.

Definition step (s : State) (i : Input) : State :=
  match i with
  | Click tgt => click tgt s
  | Timeout w => timeout w s
  end.

Definition run (inputs : list Input) (s : State) : State :=
  fold_left step inputs s.

(** The state in which the framework calls [ngAfterViewInit]: the content
    queries are resolved, nothing is registered or logged yet. *)
Definition created (sliding : option IonItemSliding)
    (options : list IonItemOptions) (host : Element)
    (query : string -> option Element) : State :=
  {| itemSliding := sliding; itemOptionsList := options;
     revealButton := None; swipeDirection := None;
     nativeElement := host; querySelector := query;
     listeners := []; timers := []; console := []; dispatched := [] |}.

(** The state after the framework has run the lifecycle hook; an exception of
    the hook is reported like that of any task. *)
Definition attached (sliding : option IonItemSliding)
    (options : list IonItemOptions) (host : Element)
    (query : string -> option Element) : State :=
  run_task ngAfterViewInit (created sliding options host query).

(** * Verification *)

(** ** Observations on events and platforms *)

Definition event_type (e : Event) : string :=
  match e with
  | TouchEvent type _ => type
  | MouseEvent type _ => type
  end.

Definition is_touch (e : Event) : bool :=
  match e with TouchEvent _ _ => true | MouseEvent _ _ => false end.

(** The contact points carried by an event, as (horizontal, vertical) pairs:
    every touch of the three lists of a touch event, the client position of a
    mouse event. *)
Definition event_points (e : Event) : list (number * number) :=
  match e with
  | TouchEvent _ init =>
      map (fun t => (clientX t, clientY t))
          (touches init ++ targetTouches init ++ changedTouches init)
  | MouseEvent _ args => [(clientXArg args, clientYArg args)]
  end.

(** The three phases of the emulated gesture. *)
Inductive Phase := Start | Move | End.

Definition phase_of (type : string) : option Phase :=
  if String.eqb type "touchstart" || String.eqb type "mousedown" then Some Start
  else if String.eqb type "touchmove" || String.eqb type "mousemove" then Some Move
  else if String.eqb type "touchend" || String.eqb type "mouseup" then Some End
  else None.

(** No platform call raises while the snapshot is current. *)
Definition quiet (w : Platform) : Prop := forall c, throws w c = false.

(** The triple of event types in use under a snapshot ([eventTypes]). *)
Definition active_types (w : Platform) : list string :=
  if supportTouchEvent w then touchEvents else mouseEvents.

(** ** What one call of the dispatcher does *)

(** The entry of the triple chosen for a step. *)
Definition slot (index n : Z) : nat :=
  if index =? 0 then 0%nat else if index =? n - 1 then 1%nat else 2%nat.

(** The contact point computed for a step. *)
Definition point (d : option SwipeDirection) (r : DOMRect) (index : Z)
  : number * number :=
  (match d with
   | Some toRight =>
       number_add (rect_left r) (number_mul (number_of_Z index) (number_of_Z 50))
   | _ =>
       number_sub (rect_right r) (number_mul (number_of_Z index) (number_of_Z 50))
   end,
   number_add (rect_top r) (number_of_Z 10)).

(** The object built by [sendTouchEvent]. *)
Definition touch_event (w : Platform) (element : Element) (type : string)
    (p : number * number) : Event :=
  let touch :=
    {| identifier := dateNow w; target := element;
       clientX := fst p; clientY := snd p;
       radiusX := (5 # 2)%Q; radiusY := (5 # 2)%Q;
       rotationAngle := 10; force := (1 # 2)%Q |} in
  TouchEvent type
    {| cancelable := true; bubbles := true; touches := [touch];
       targetTouches := []; changedTouches := [touch]; shiftKey := true |}.

(** The object built by [sendMouseEvent]. *)
Definition mouse_event (type : string) (p : number * number) : Event :=
  MouseEvent type
    {| canBubbleArg := true; cancelableArg := true; viewArg := window;
       detailArg := 0; screenXArg := 0; screenYArg := 0;
       clientXArg := fst p; clientYArg := snd p;
       ctrlKeyArg := false; altKeyArg := false; shiftKeyArg := false;
       metaKeyArg := false; buttonArg := 0; relatedTargetArg := None |}.

(** The event of a step: what [sendEventsDispatcher] hands to
    [dispatchEvent] when it gets that far. *)
Definition synthesized (w : Platform) (d : option SwipeDirection)
    (host : Element) (index n : Z) : Event :=
  let p := point d (boundingClientRect w) index in
  if supportTouchEvent w then
    touch_event w host (array_get touchEvents (slot index n)) p
  else
    mouse_event (array_get mouseEvents (slot index n)) p.

(** How a call of the dispatcher ends under a snapshot. *)
Inductive Outcome :=
| Dispatches                 (* the event reaches the host *)
| Logs (c : ApiCall)         (* the exception of [c] is caught and logged *)
| Raises (c : ApiCall).      (* the exception of [c] escapes *)

Definition outcome (w : Platform) : Outcome :=
  if supportTouchEvent w then
    if throws w NewTouch then Logs NewTouch
    else if throws w NewTouchEvent then Logs NewTouchEvent
    else if throws w DispatchEvent then Logs DispatchEvent
    else Dispatches
  else
    if throws w CreateEvent then Raises CreateEvent
    else if throws w InitMouseEvent then Raises InitMouseEvent
    else if throws w DispatchEvent then Raises DispatchEvent
    else Dispatches.

Definition log_dispatch (ev : Element * Event) (s : State) : State :=
  set_dispatched (dispatched s ++ [ev]) s.

Definition log_console (c : ConsoleEntry) (s : State) : State :=
  set_console (console s ++ [c]) s.

(** The state and completion after a call of the dispatcher. *)
Definition dispatcher_result (w : Platform) (index n : Z) (s : State)
  : Completion unit * State :=
  match outcome w with
  | Dispatches =>
      (Normal tt,
       log_dispatch
         (nativeElement s,
          synthesized w (swipeDirection s) (nativeElement s) index n) s)
  | Logs c => (Normal tt, log_console (ErrorLog (PlatformExn c)) s)
  | Raises c => (Throw (PlatformExn c), s)
  end.


(** The timer registered by [sendEvents(index)]. *)
Definition step_timer (index : Z) : Timer :=
  {| t_callback := SendEventsStep index maxIterations; t_delay := 10 |}.

(** The state after [sendEvents(index)]. *)
Definition schedule (index : Z) (s : State) : State :=
  if index =? maxIterations then s
  else set_timers (timers s ++ [step_timer index]) s.

(** The state after the callback of step [index] has run as a task, the
    timer having left the queue. *)
Definition after_callback (w : Platform) (index n : Z) (s : State) : State :=
  match outcome w with
  | Dispatches =>
      schedule (index + 1)
        (log_dispatch
           (nativeElement s,
            synthesized w (swipeDirection s) (nativeElement s) index n) s)
  | Logs c =>
      schedule (index + 1) (log_console (ErrorLog (PlatformExn c)) s)
  | Raises c => log_console (Uncaught (PlatformExn c)) s
  end.

(** The number of listeners of a list that a click on [tgt] runs. *)
Definition listening (tgt : Element) (ls : list Listener) : nat :=
  List.length (filter (listens tgt "click") ls).

(** The listener registered by [init] on the trigger [b]. *)
Definition click_listener (b : Element) : Listener :=
  {| l_target := b; l_event := "click"; l_handler := RevealClick |}.

(** The directive is set up with [b] as its trigger and no run is in
    flight. *)
Definition idle (b : Element) (s : State) : Prop :=
  listeners s = [click_listener b] /\ timers s = [].

(** The selector handed to [querySelector] by [init]. *)
Definition button_selector : string := "ion-item *[appRevealSlidingButton]".

(** Two states agree on the directive instance and on the registered
    listeners. *)
Definition same_attachment (s s' : State) : Prop :=
  itemSliding s' = itemSliding s /\
  itemOptionsList s' = itemOptionsList s /\
  revealButton s' = revealButton s /\
  swipeDirection s' = swipeDirection s /\
  nativeElement s' = nativeElement s /\
  querySelector s' = querySelector s /\
  listeners s' = listeners s.

(** The direction chosen by [init] for a list of options panels. *)
Definition selected (options : list IonItemOptions) : SwipeDirection :=
  match hd_error options with
  | Some o => if String.eqb (side o) "start" then toRight else toLeft
  | None => toLeft
  end.

(** The first options panel exists and is anchored at ["start"]. *)
Definition first_anchor_is_start (options : list IonItemOptions) : Prop :=
  exists o rest, options = o :: rest /\ side o = "start".

Definition missing_trigger_warning : ConsoleEntry :=
  Warn "RevealSlidingDirective: appRevealSlidingButton attribute is missed".

Definition missing_container_error : Exn :=
  Error "RevealSlidingDirective: Missing ion-item-sliding node".


(** ** The timer queue as a queue of step indices

    Every timer of the directive is a [step_timer]; the queue of pending
    timers is therefore a list of step indices, and the event loop acts on it
    as follows. *)

(** The timers that the callback of step [index] leaves behind. *)
Definition next_step (w : Platform) (index : Z) : list Z :=
  match outcome w with
  | Raises _ => []
  | _ => if index + 1 =? maxIterations then [] else [index + 1]
  end.

(** The queue after a sequence of inputs. *)
Fixpoint queue_after (ls : list Listener) (q : list Z) (inputs : list Input)
  : list Z :=
  match inputs with
  | [] => q
  | Click tgt :: rest => queue_after ls (q ++ repeat 0 (listening tgt ls)) rest
  | Timeout w :: rest =>
      match q with
      | [] => queue_after ls [] rest
      | index :: q' => queue_after ls (q' ++ next_step w index) rest
      end
  end.

(** The steps that run during a sequence of inputs, in order, each with the
    snapshot under which it runs. *)
Fixpoint trace (ls : list Listener) (q : list Z) (inputs : list Input)
  : list (Z * Platform) :=
  match inputs with
  | [] => []
  | Click tgt :: rest => trace ls (q ++ repeat 0 (listening tgt ls)) rest
  | Timeout w :: rest =>
      match q with
      | [] => trace ls [] rest
      | index :: q' => (index, w) :: trace ls (q' ++ next_step w index) rest
      end
  end.

(** What a step writes: an event for the host, a logged exception, or the
    report of an escaped exception. *)
Definition effect (d : option SwipeDirection) (host : Element)
    (s : State) (x : Z * Platform) : State :=
  match outcome (snd x) with
  | Dispatches =>
      log_dispatch (host, synthesized (snd x) d host (fst x) maxIterations) s
  | Logs c => log_console (ErrorLog (PlatformExn c)) s
  | Raises c => log_console (Uncaught (PlatformExn c)) s
  end.

Definition replay (d : option SwipeDirection) (host : Element)
    (tr : list (Z * Platform)) (s : State) : State :=
  fold_left (effect d host) tr s.

(** The events and the console entries written by the steps of a trace. *)
Definition events_of (d : option SwipeDirection) (host : Element)
    (tr : list (Z * Platform)) : list (Element * Event) :=
  flat_map
    (fun x => match outcome (snd x) with
              | Dispatches =>
                  [(host, synthesized (snd x) d host (fst x) maxIterations)]
              | _ => []
              end) tr.

Definition entries_of (tr : list (Z * Platform)) : list ConsoleEntry :=
  flat_map
    (fun x => match outcome (snd x) with
              | Dispatches => []
              | Logs c => [ErrorLog (PlatformExn c)]
              | Raises c => [Uncaught (PlatformExn c)]
              end) tr.

(** The phase of the gesture that belongs to a step of a run. *)
Definition phase_at (index : Z) : Phase :=
  if index =? 0 then Start else if index =? maxIterations - 1 then End else Move.

(** [l] is an interleaving of [l1] and [l2] that keeps the order of each. *)
Inductive Interleaved {A : Type} : list A -> list A -> list A -> Prop :=
| Interleaved_nil : Interleaved [] [] []
| Interleaved_left x l1 l2 l :
    Interleaved l1 l2 l -> Interleaved (x :: l1) l2 (x :: l)
| Interleaved_right x l1 l2 l :
    Interleaved l1 l2 l -> Interleaved l1 (x :: l2) (x :: l).

(** A step whose exception does not escape schedules its successor. *)
Definition continues (w : Platform) : Prop :=
  forall c, outcome w <> Raises c.

(** ** Sample platforms and attachments *)

Definition sample_rect : DOMRect :=
  {| rect_top := number_of_Z 100; rect_left := number_of_Z 0;
     rect_right := number_of_Z 360 |}.

(** [Touch] and [TouchEvent] are defined and constructible. *)
Definition touch_platform : Platform :=
  {| typeofTouch := true; typeofTouchEvent := true;
     boundingClientRect := sample_rect; dateNow := 1700000000000;
     throws := fun _ => false |}.

(** [Touch] and [TouchEvent] are not defined. *)
Definition mouse_platform : Platform :=
  {| typeofTouch := false; typeofTouchEvent := false;
     boundingClientRect := sample_rect; dateNow := 1700000000000;
     throws := fun _ => false |}.

(** [Touch] and [TouchEvent] are defined, but [new Touch(...)] raises. *)
Definition illegal_constructor_platform : Platform :=
  {| typeofTouch := true; typeofTouchEvent := true;
     boundingClientRect := sample_rect; dateNow := 1700000000000;
     throws := fun c => match c with NewTouch => true | _ => false end |}.

(** A directive on host 1 with one options panel at the given side and the
    trigger element 2, after its setup. *)
Definition sample_attachment (anchor : string) : State :=
  attached (Some (IonItemSlidingRef 1)) [{| side := anchor |}] 1
    (fun _ => Some 2%nat).

(** ** Steps of one run *)

(** The state of a run started by a click on [b] after [k] timer expiries,
    the i-th under the i-th snapshot of [ws]. *)
Definition run_upto (b : Element) (ws : list Platform) (k : nat) (s : State)
  : State :=
  run (Click b :: map Timeout (firstn k ws)) s.

(** Step [k] of the run dispatches the event [e] on [tgt]: the expiry
    numbered [k], counted from 0, appends it to the dispatched events. *)
Definition dispatches_at (b : Element) (ws : list Platform) (s : State)
    (k : nat) (tgt : Element) (e : Event) : Prop :=
  dispatched (run_upto b ws (S k) s) =
  dispatched (run_upto b ws k s) ++ [(tgt, e)].



(** The modifier keys and touch lists with which the synthesizers build
    their events. *)
Definition built_as_synthesized (e : Event) : Prop :=
  match e with
  | TouchEvent _ init => shiftKey init = true /\ targetTouches init = []
  | MouseEvent _ args =>
      ctrlKeyArg args = false /\ altKeyArg args = false /\
      shiftKeyArg args = false /\ metaKeyArg args = false
  end.

(** The events that a computation appends to the dispatched events. *)
Definition appended (s s' : State) (new : list (Element * Event)) : Prop :=
  dispatched s' = dispatched s ++ new.

(** Two states have the same swipe direction and the same trigger element. *)
Definition same_direction_and_trigger (s s' : State) : Prop :=
  swipeDirection s' = swipeDirection s /\ revealButton s' = revealButton s.

(** ** Further observations *)

(** The warnings of [selfCheck] for a list of options panels. *)
Definition panel_warnings (options : list IonItemOptions) : list ConsoleEntry :=
  match options with
  | [] => [Warn "RevealSlidingDirective: Missing ion-item-options element"]
  | [_] => []
  | _ :: _ :: _ =>
      [Warn "RevealSlidingDirective: Processing only a one ion-item-options element"]
  end.

(** Every step index of a queue is one that [sendEvents] schedules in a run
    started at index 0. *)
Definition in_range (q : list Z) : Prop :=
  Forall (fun index => 0 <= index < maxIterations) q.

(** The number of steps that the timers of a queue have yet to run. *)
Definition work (q : list Z) : Z :=
  fold_right (fun index acc => (maxIterations - index) + acc) 0 q.

(** The number of clicks on [b] in a sequence of inputs. *)
Fixpoint clicks_on (b : Element) (inputs : list Input) : nat :=
  match inputs with
  | [] => 0%nat
  | Click tgt :: rest =>
      ((if Nat.eqb tgt b then 1 else 0) + clicks_on b rest)%nat
  | Timeout _ :: rest => clicks_on b rest
  end.

(** The number of runs started by a sequence of inputs, given the
    listeners. *)
Fixpoint started (ls : list Listener) (inputs : list Input) : nat :=
  match inputs with
  | [] => 0%nat
  | Click tgt :: rest => (listening tgt ls + started ls rest)%nat
  | Timeout _ :: rest => started ls rest
  end.

(** One of the platform calls of the mouse synthesizer raises. *)
Definition mouse_call_raises (w : Platform) : bool :=
  throws w CreateEvent || throws w InitMouseEvent || throws w DispatchEvent.

(** The shape with which the synthesizers build an event for [host]: a touch
    event bubbles, is cancelable and carries one contact, targeted at the
    host, in both [touches] and [changedTouches]; a mouse event bubbles, is
    cancelable, has the left button and no related target. *)
Definition shaped_for (host : Element) (e : Event) : Prop :=
  match e with
  | TouchEvent _ init =>
      bubbles init = true /\ cancelable init = true /\
      exists t,
        touches init = [t] /\ changedTouches init = [t] /\
        target t = host /\
        radiusX t = (5 # 2)%Q /\ radiusY t = (5 # 2)%Q /\
        rotationAngle t = 10 /\ force t = (1 # 2)%Q
  | MouseEvent _ args =>
      canBubbleArg args = true /\ cancelableArg args = true /\
      buttonArg args = 0 /\ detailArg args = 0 /\
      screenXArg args = 0 /\ screenYArg args = 0 /\
      relatedTargetArg args = None
  end.

(** The identifiers of the contacts of an event. *)
Definition event_identifiers (e : Event) : list Z :=
  match e with
  | TouchEvent _ init =>
      map identifier (touches init ++ targetTouches init ++ changedTouches init)
  | MouseEvent _ _ => []
  end.

(** ** Numbers with an exact value

    The definitions used to say when the arithmetic of the coordinates is
    exact. *)

(** The number nearest to [z * 2 ^ e]. *)
Definition rounded (z e : Z) : number := binary_normalize 53 1024 z e false.



(** [m * 2 ^ n] on mantissas. *)
Definition shift_left (m : positive) (n : Z) : positive :=
  match n with Zpos p => Pos.iter xO m p | _ => m end.

(** The number of bits of a mantissa. *)
Definition mantissa_digits (m : positive) : Z := Zpos (digits2_pos m).

(** The number of sign [s] and value [m * 2 ^ e], its mantissa brought to 53
    bits. *)
Definition canonical (s : bool) (m : positive) (e : Z) : number :=
  S754_finite s (shift_left m (53 - mantissa_digits m))
    (mantissa_digits m + e - 53).





(** A click of the user: the click event arrives at each element of its
    propagation path in turn, the clicked element first, then its ancestors
    from the innermost outwards, as far as the event propagates. *)
Definition user_click (path : list Element) : list Input := map Click path.

(** ** Further sample platforms *)

(** A box on subpixel positions: top 100.125, left 12.5, right 360.125. *)
Definition subpixel_rect : DOMRect :=
  {| rect_top := rounded 801 (-3); rect_left := rounded 25 (-1);
     rect_right := rounded 2881 (-3) |}.

(** [Touch] is defined, [TouchEvent] is not; the host is at [subpixel_rect]. *)
Definition subpixel_platform : Platform :=
  {| typeofTouch := true; typeofTouchEvent := false;
     boundingClientRect := subpixel_rect; dateNow := 1700000000000;
     throws := fun _ => false |}.


(** ** What the user and the clock do *)

(** A click of the user, given by its propagation path, or the expiry of the
    oldest pending timer. *)
Inductive UserInput :=
| UserClick (path : list Element)
| TimerExpiry (w : Platform).

(** The inputs of the event loop for a sequence of user inputs. *)
Definition deliver (us : list UserInput) : list Input :=
  flat_map (fun u => match u with
                     | UserClick path => user_click path
                     | TimerExpiry w => [Timeout w]
                     end) us.

(** The number of times the clicks of a sequence reach [b]: a click on [b]
    or on a descendant of [b] reaches it once, any other click does not. *)
Fixpoint trigger_clicks (b : Element) (us : list UserInput) : nat :=
  match us with
  | [] => 0%nat
  | UserClick path :: rest =>
      (count_occ Nat.eq_dec path b + trigger_clicks b rest)%nat
  | TimerExpiry _ :: rest => trigger_clicks b rest
  end.
(** * Lemmas on single calls *)

Lemma sendTouchEvent_eq w element type x y s :
  sendTouchEvent w element type x y s =
  (Normal tt,
   if throws w NewTouch then log_console (ErrorLog (PlatformExn NewTouch)) s
   else if throws w NewTouchEvent then
     log_console (ErrorLog (PlatformExn NewTouchEvent)) s
   else if throws w DispatchEvent then
     log_console (ErrorLog (PlatformExn DispatchEvent)) s
   else log_dispatch (element, touch_event w element type (x, y)) s).
Proof.
  unfold sendTouchEvent, try_catch, bind, new_Touch, new_TouchEvent,
    dispatchEvent, platform_call, bind.
  destruct (throws w NewTouch); [reflexivity|].
  cbn. destruct (throws w NewTouchEvent); [reflexivity|].
  cbn. destruct (throws w DispatchEvent); reflexivity.
Qed.

Lemma sendMouseEvent_eq w element type x y s :
  sendMouseEvent w element type x y s =
  if throws w CreateEvent then (Throw (PlatformExn CreateEvent), s)
  else if throws w InitMouseEvent then (Throw (PlatformExn InitMouseEvent), s)
  else if throws w DispatchEvent then (Throw (PlatformExn DispatchEvent), s)
  else (Normal tt, log_dispatch (element, mouse_event type (x, y)) s).
Proof.
  unfold sendMouseEvent, bind, document_createEvent, initMouseEvent,
    dispatchEvent, platform_call, bind.
  destruct (throws w CreateEvent); [reflexivity|].
  cbn. destruct (throws w InitMouseEvent); [reflexivity|].
  cbn. destruct (throws w DispatchEvent); reflexivity.
Qed.

Lemma sendEventsDispatcher_eq w index n s :
  sendEventsDispatcher w index n s = dispatcher_result w index n s.
Proof.
  unfold sendEventsDispatcher, dispatcher_result, outcome, synthesized, slot,
    point, bind, get.
  destruct (supportTouchEvent w).
  - destruct (index =? 0); [|destruct (index =? n - 1)];
      rewrite sendTouchEvent_eq;
      destruct (throws w NewTouch); try reflexivity;
      destruct (throws w NewTouchEvent); try reflexivity;
      destruct (throws w DispatchEvent); try reflexivity;
      destruct (swipeDirection s) as [[|]|]; reflexivity.
  - destruct (index =? 0); [|destruct (index =? n - 1)];
      rewrite sendMouseEvent_eq;
      destruct (throws w CreateEvent); try reflexivity;
      destruct (throws w InitMouseEvent); try reflexivity;
      destruct (throws w DispatchEvent); try reflexivity;
      destruct (swipeDirection s) as [[|]|]; reflexivity.
Qed.

Lemma sendEvents_eq index s :
  sendEvents index s = (Normal tt, schedule index s).
Proof.
  unfold sendEvents, schedule, setTimeout, modify, ret, step_timer.
  destruct (index =? maxIterations); reflexivity.
Qed.

Lemma callback_eq w index n s :
  run_task (callback w (SendEventsStep index n)) s = after_callback w index n s.
Proof.
  unfold run_task, callback, bind, after_callback.
  rewrite sendEventsDispatcher_eq. unfold dispatcher_result.
  destruct (outcome w); rewrite ?sendEvents_eq; reflexivity.
Qed.

Lemma timeout_eq w s index n d rest :
  timers s = {| t_callback := SendEventsStep index n; t_delay := d |} :: rest ->
  timeout w s = after_callback w index n (set_timers rest s).
Proof.
  intros H. unfold timeout. rewrite H. cbn [t_callback]. apply callback_eq.
Qed.

Lemma timeout_nil w s : timers s = [] -> timeout w s = s.
Proof. intros H. unfold timeout. now rewrite H. Qed.

Lemma set_timers_same s : set_timers (timers s) s = s.
Proof. now destruct s. Qed.

Lemma click_fold tgt ls s :
  fold_left
    (fun s' l => if listens tgt "click" l
                 then run_task (handler (l_handler l)) s' else s')
    ls s
  = set_timers (timers s ++ repeat (step_timer 0) (listening tgt ls)) s.
Proof.
  revert s. induction ls as [|l ls IH]; intros s.
  - cbn. rewrite app_nil_r. symmetry. apply set_timers_same.
  - cbn [fold_left]. rewrite IH. unfold listening. cbn [filter].
    destruct (listens tgt "click" l).
    + destruct (l_handler l). unfold run_task, handler.
      rewrite sendEvents_eq. unfold schedule. cbn.
      now rewrite <- app_assoc.
    + reflexivity.
Qed.

Lemma click_eq tgt s :
  click tgt s =
  set_timers (timers s ++ repeat (step_timer 0) (listening tgt (listeners s))) s.
Proof. apply click_fold. Qed.

Lemma run_cons i inputs s : run (i :: inputs) s = run inputs (step s i).
Proof. reflexivity. Qed.

Lemma run_app l1 l2 s : run (l1 ++ l2) s = run l2 (run l1 s).
Proof. apply fold_left_app. Qed.

Lemma click_idle b s : idle b s -> click b s = set_timers [step_timer 0] s.
Proof.
  intros [Hl Ht]. rewrite click_eq, Hl, Ht. unfold listening, listens. cbn.
  now rewrite Nat.eqb_refl.
Qed.

(** * Lemmas on the frame of a run *)

Lemma same_attachment_refl s : same_attachment s s.
Proof. repeat split. Qed.

Lemma same_attachment_trans s1 s2 s3 :
  same_attachment s1 s2 -> same_attachment s2 s3 -> same_attachment s1 s3.
Proof.
  unfold same_attachment.
  intros (A1 & A2 & A3 & A4 & A5 & A6 & A7) (B1 & B2 & B3 & B4 & B5 & B6 & B7).
  repeat split; congruence.
Qed.

Lemma same_attachment_timers t s : same_attachment s (set_timers t s).
Proof. repeat split. Qed.

Lemma same_attachment_schedule index s : same_attachment s (schedule index s).
Proof. unfold schedule. destruct (index =? maxIterations); repeat split. Qed.

Lemma same_attachment_after_callback w index n s :
  same_attachment s (after_callback w index n s).
Proof.
  unfold after_callback.
  destruct (outcome w);
    try (eapply same_attachment_trans; [|apply same_attachment_schedule]);
    repeat split.
Qed.

Lemma same_attachment_click tgt s : same_attachment s (click tgt s).
Proof. rewrite click_eq. apply same_attachment_timers. Qed.

Lemma same_attachment_timeout w s : same_attachment s (timeout w s).
Proof.
  destruct (timers s) as [|[[index n] d] rest] eqn:E.
  - rewrite timeout_nil by assumption. apply same_attachment_refl.
  - rewrite (timeout_eq _ _ _ _ _ _ E).
    eapply same_attachment_trans;
      [apply same_attachment_timers | apply same_attachment_after_callback].
Qed.

Lemma same_attachment_step s i : same_attachment s (step s i).
Proof.
  destruct i; [apply same_attachment_click | apply same_attachment_timeout].
Qed.

Lemma same_attachment_run inputs s : same_attachment s (run inputs s).
Proof.
  revert s. induction inputs as [|i inputs IH]; intros s.
  - apply same_attachment_refl.
  - rewrite run_cons. eapply same_attachment_trans;
      [apply same_attachment_step | apply IH].
Qed.

(** With nothing registered and nothing pending the directive is inert. *)
Lemma run_inert inputs s :
  listeners s = [] -> timers s = [] -> run inputs s = s.
Proof.
  intros Hl Ht. induction inputs as [|i inputs IH]; [reflexivity|].
  rewrite run_cons. destruct i as [tgt|w]; cbn [step].
  - rewrite click_eq, Hl, Ht. cbn. rewrite <- Ht at 1.
    rewrite set_timers_same. exact IH.
  - rewrite timeout_nil by assumption. exact IH.
Qed.

(** * Lemmas on the setup *)

Lemma selfCheck_missing s :
  itemSliding s = None ->
  selfCheck s =
  (Throw (Error "RevealSlidingDirective: Missing ion-item-sliding node"), s).
Proof. intros H. unfold selfCheck, bind, get. now rewrite H. Qed.

Lemma selfCheck_present s c :
  itemSliding s = Some c ->
  exists warnings,
    selfCheck s = (Normal tt, set_console (console s ++ warnings) s)
    /\ Forall (fun e => exists m, e = Warn m) warnings.
Proof.
  intros H. unfold selfCheck, bind, get. rewrite H. cbn.
  destruct (itemOptionsList s) as [|o [|o' l]]; cbn [List.length].
  - exists [Warn "RevealSlidingDirective: Missing ion-item-options element"].
    split; [reflexivity|]. repeat constructor. eauto.
  - exists []. split; [|constructor].
    cbn. rewrite app_nil_r. f_equal. now destruct s.
  - exists [Warn "RevealSlidingDirective: Processing only a one ion-item-options element"].
    split; [|repeat constructor; eauto].
    replace (1 <? Z.of_nat (S (S (List.length l)))) with true
      by (symmetry; apply Z.ltb_lt; lia).
    replace (Z.of_nat (S (S (List.length l))) =? 0) with false
      by (symmetry; apply Z.eqb_neq; lia).
    reflexivity.
Qed.

Lemma init_eq s :
  init s =
  (Normal tt,
   let s1 :=
     set_revealButton (querySelector s button_selector)
       (set_swipeDirection (Some (selected (itemOptionsList s))) s) in
   match querySelector s button_selector with
   | None => log_console missing_trigger_warning s1
   | Some b => set_listeners (listeners s ++ [click_listener b]) s1
   end).
Proof.
  unfold init, bind, get, modify, selected, button_selector.
  destruct (hd_error (itemOptionsList s)) as [o|]; cbn;
    destruct (querySelector s _); reflexivity.
Qed.

Lemma selected_start options :
  selected options = toRight <-> first_anchor_is_start options.
Proof.
  unfold selected, first_anchor_is_start.
  destruct options as [|o rest]; cbn.
  - split; [discriminate|]. intros (o & rest & H & _). discriminate.
  - destruct (String.eqb_spec (side o) "start") as [E|E].
    + split; [|reflexivity]. intros _. now exists o, rest.
    + split; [discriminate|]. intros (o' & rest' & H & Hs).
      injection H as -> ->. contradiction.
Qed.

Lemma ngAfterViewInit_present s c :
  itemSliding s = Some c ->
  exists warnings,
    Forall (fun e => exists m, e = Warn m) warnings /\
    ngAfterViewInit s =
    (Normal tt,
     let s1 :=
       set_revealButton (querySelector s button_selector)
         (set_swipeDirection (Some (selected (itemOptionsList s)))
            (set_console (console s ++ warnings) s)) in
     match querySelector s button_selector with
     | None => log_console missing_trigger_warning s1
     | Some b => set_listeners (listeners s ++ [click_listener b]) s1
     end).
Proof.
  intros H. destruct (selfCheck_present s c H) as (warnings & E & HW).
  exists warnings. split; [exact HW|].
  unfold ngAfterViewInit, bind. rewrite E, init_eq. reflexivity.
Qed.

(** * The event loop acts on a queue of step indices *)

Lemma replay_set_timers d host tr t s :
  replay d host tr (set_timers t s) = set_timers t (replay d host tr s).
Proof.
  revert s. induction tr as [|x tr IH]; intros s; [reflexivity|].
  unfold replay in *. cbn [fold_left]. rewrite <- IH. f_equal.
  unfold effect. destruct (outcome (snd x)); reflexivity.
Qed.

Lemma set_timers_twice t t' s : set_timers t (set_timers t' s) = set_timers t s.
Proof. reflexivity. Qed.

Lemma after_callback_queue w index q s :
  after_callback w index maxIterations (set_timers (map step_timer q) s) =
  set_timers (map step_timer (q ++ next_step w index))
    (effect (swipeDirection s) (nativeElement s) s (index, w)).
Proof.
  unfold after_callback, effect, next_step, schedule. cbn [fst snd].
  destruct (outcome w); cbn;
    try (destruct (index + 1 =? maxIterations)); cbn;
    rewrite ?app_nil_r, ?map_app; reflexivity.
Qed.

Lemma map_step_timer_repeat k :
  repeat (step_timer 0) k = map step_timer (repeat 0 k).
Proof. induction k; cbn; congruence. Qed.

(** The state after a sequence of inputs: the queue is [queue_after], and the
    steps of [trace] have written their effects in order. *)
Lemma run_queue inputs : forall q s,
  timers s = map step_timer q ->
  run inputs s =
  set_timers (map step_timer (queue_after (listeners s) q inputs))
    (replay (swipeDirection s) (nativeElement s)
       (trace (listeners s) q inputs) s).
Proof.
  induction inputs as [|[tgt|w] inputs IH]; intros q s H.
  - cbn. rewrite <- H. symmetry. apply set_timers_same.
  - rewrite run_cons. cbn [step queue_after trace].
    rewrite click_eq, H, map_step_timer_repeat, <- map_app.
    erewrite IH by reflexivity. cbn [listeners swipeDirection nativeElement set_timers].
    change (replay ?d ?h ?tr {| itemSliding := itemSliding s;
              itemOptionsList := itemOptionsList s;
              revealButton := revealButton s;
              swipeDirection := swipeDirection s;
              nativeElement := nativeElement s;
              querySelector := querySelector s;
              listeners := listeners s; timers := ?t;
              console := console s; dispatched := dispatched s |})
      with (replay d h tr (set_timers t s)).
    rewrite replay_set_timers. reflexivity.
  - rewrite run_cons. cbn [step queue_after trace].
    destruct q as [|index q].
    + rewrite timeout_nil by exact H. apply IH. exact H.
    + rewrite (timeout_eq w s index maxIterations 10 (map step_timer q)) by exact H.
      rewrite after_callback_queue.
      erewrite IH by reflexivity.
      assert (A : same_attachment s
                (effect (swipeDirection s) (nativeElement s) s (index, w))).
      { unfold effect. destruct (outcome (snd (index, w))); repeat split. }
      destruct A as (_ & _ & _ & Ad & Ae & _ & Al).
      cbn [listeners swipeDirection nativeElement set_timers].
      rewrite Ad, Ae, Al.
      change (replay ?d ?h ?tr {| itemSliding := ?a; itemOptionsList := ?b;
                revealButton := ?c; swipeDirection := ?e; nativeElement := ?f;
                querySelector := ?g; listeners := ?l; timers := ?t;
                console := ?k; dispatched := ?m |})
        with (replay d h tr (set_timers t
                (effect (swipeDirection s) (nativeElement s) s (index, w)))).
      rewrite replay_set_timers. reflexivity.
Qed.

Lemma replay_dispatched d host tr s :
  dispatched (replay d host tr s) = dispatched s ++ events_of d host tr.
Proof.
  revert s. unfold replay, events_of.
  induction tr as [|x tr IH]; intros s; cbn [fold_left flat_map].
  - now rewrite app_nil_r.
  - rewrite IH. unfold effect. destruct (outcome (snd x)); cbn.
    + now rewrite <- app_assoc.
    + reflexivity.
    + reflexivity.
Qed.

Lemma replay_console d host tr s :
  console (replay d host tr s) = console s ++ entries_of tr.
Proof.
  revert s. unfold replay, entries_of.
  induction tr as [|x tr IH]; intros s; cbn [fold_left flat_map].
  - now rewrite app_nil_r.
  - rewrite IH. unfold effect. destruct (outcome (snd x)); cbn.
    + reflexivity.
    + now rewrite <- app_assoc.
    + now rewrite <- app_assoc.
Qed.

Lemma run_timers inputs q s :
  timers s = map step_timer q ->
  timers (run inputs s) = map step_timer (queue_after (listeners s) q inputs).
Proof. intros H. now rewrite (run_queue inputs q s H). Qed.

Lemma run_dispatched inputs q s :
  timers s = map step_timer q ->
  dispatched (run inputs s) =
  dispatched s ++
  events_of (swipeDirection s) (nativeElement s) (trace (listeners s) q inputs).
Proof.
  intros H. rewrite (run_queue inputs q s H). cbn [dispatched set_timers].
  apply replay_dispatched.
Qed.

Lemma run_console inputs q s :
  timers s = map step_timer q ->
  console (run inputs s) =
  console s ++ entries_of (trace (listeners s) q inputs).
Proof.
  intros H. rewrite (run_queue inputs q s H). cbn [console set_timers].
  apply replay_console.
Qed.

Lemma listening_self b : listening b [click_listener b] = 1%nat.
Proof. unfold listening, listens. cbn. now rewrite Nat.eqb_refl. Qed.

Lemma outcome_quiet w : quiet w -> outcome w = Dispatches.
Proof.
  intros H. unfold outcome. rewrite !H. now destruct (supportTouchEvent w).
Qed.

Lemma outcome_touch w :
  supportTouchEvent w = true ->
  outcome w = Dispatches \/ exists c, outcome w = Logs c /\ throws w c = true.
Proof.
  intros H. unfold outcome. rewrite H.
  destruct (throws w NewTouch) eqn:E1; [right; eauto|].
  destruct (throws w NewTouchEvent) eqn:E2; [right; eauto|].
  destruct (throws w DispatchEvent) eqn:E3; [right; eauto|].
  now left.
Qed.

Lemma continues_quiet w : quiet w -> continues w.
Proof. intros H c. now rewrite outcome_quiet. Qed.

Lemma continues_touch w : supportTouchEvent w = true -> continues w.
Proof.
  intros H c. destruct (outcome_touch w H) as [E|(c' & E & _)];
    rewrite E; discriminate.
Qed.

Lemma next_step_continues w index :
  continues w ->
  next_step w index = if index + 1 =? maxIterations then [] else [index + 1].
Proof.
  intros H. unfold next_step. destruct (outcome w) eqn:E; try reflexivity.
  now elim (H c).
Qed.

Lemma Forall_firstn_list {A} (P : A -> Prop) (l : list A) (k : nat) :
  Forall P l -> Forall P (firstn k l).
Proof.
  revert k. induction l as [|x l IH]; intros [|k] H; cbn; try constructor.
  - now inversion H.
  - apply IH. now inversion H.
Qed.

Lemma run_timeouts_idle ws s :
  timers s = [] -> run (map Timeout ws) s = s.
Proof.
  intros H. induction ws as [|w ws IH]; [reflexivity|].
  cbn [map]. rewrite run_cons. cbn [step]. now rewrite timeout_nil.
Qed.

(** ** One run *)

(** The queue and the trace of a run started by a click in an idle state,
    while no exception escapes: step [k] runs at the k-th expiry, and the
    queue is empty from the fifth expiry on. *)
Lemma single_run_trace b ws :
  Forall continues ws ->
  trace [click_listener b] [] (Click b :: map Timeout ws) =
  combine [0; 1; 2; 3; 4] ws.
Proof.
  intros H. cbn [trace app]. rewrite listening_self. cbn [repeat].
  assert (G : forall ws', trace [click_listener b] [] (map Timeout ws') = []).
  { induction ws' as [|w ws' IH]; [reflexivity|exact IH]. }
  do 5 (destruct ws as [|?w ws]; [reflexivity|];
        apply Forall_cons_iff in H; destruct H as [?C H];
        cbn [map trace combine]; rewrite next_step_continues by assumption;
        cbn [Z.add Z.eqb Pos.add Pos.succ Pos.eqb maxIterations app]; f_equal).
  apply G.
Qed.

Lemma single_run_queue b ws :
  Forall continues ws ->
  queue_after [click_listener b] [] (Click b :: map Timeout ws) =
  if (List.length ws <? 5)%nat then [Z.of_nat (List.length ws)] else [].
Proof.
  intros H. cbn [queue_after app]. rewrite listening_self. cbn [repeat].
  assert (G : forall ws', queue_after [click_listener b] [] (map Timeout ws') = []).
  { induction ws' as [|w ws' IH]; [reflexivity|exact IH]. }
  do 5 (destruct ws as [|?w ws]; [reflexivity|];
        apply Forall_cons_iff in H; destruct H as [?C H];
        cbn [map queue_after]; rewrite next_step_continues by assumption;
        cbn [Z.add Z.eqb Pos.add Pos.succ Pos.eqb maxIterations app]).
  rewrite G. reflexivity.
Qed.

(** ** The synthesised event *)

Lemma synthesized_type w d host index n :
  event_type (synthesized w d host index n) =
  array_get (active_types w) (slot index n).
Proof.
  unfold synthesized, active_types. now destruct (supportTouchEvent w).
Qed.

Lemma synthesized_phase w d host index :
  phase_of (event_type (synthesized w d host index maxIterations)) =
  Some (phase_at index).
Proof.
  rewrite synthesized_type. unfold active_types, slot, phase_at.
  destruct (supportTouchEvent w), (index =? 0), (index =? maxIterations - 1);
    reflexivity.
Qed.

Lemma synthesized_is_touch w d host index n :
  is_touch (synthesized w d host index n) = supportTouchEvent w.
Proof. unfold synthesized. now destruct (supportTouchEvent w). Qed.

Lemma synthesized_type_active w d host index n :
  In (event_type (synthesized w d host index n)) (active_types w).
Proof.
  rewrite synthesized_type. unfold active_types, slot.
  destruct (supportTouchEvent w), (index =? 0), (index =? n - 1); cbn; auto.
Qed.

Lemma synthesized_points w d host index n :
  event_points (synthesized w d host index n) <> [] /\
  Forall (eq (point d (boundingClientRect w) index))
    (event_points (synthesized w d host index n)).
Proof.
  unfold synthesized.
  destruct (supportTouchEvent w); cbn; split; try discriminate;
    repeat constructor; now destruct (point d (boundingClientRect w) index).
Qed.

Lemma idle_sample anchor : idle 2 (sample_attachment anchor).
Proof. split; reflexivity. Qed.

Lemma quiet_touch_platform : quiet touch_platform.
Proof. intros c. reflexivity. Qed.

Lemma quiet_mouse_platform : quiet mouse_platform.
Proof. intros c. reflexivity. Qed.

(** ** One run under arbitrary snapshots *)

Lemma queue_after_timeouts_nil ls ws : queue_after ls [] (map Timeout ws) = [].
Proof. induction ws as [|w ws IH]; [reflexivity|exact IH]. Qed.

Lemma queue_after_chain ls ws : forall index,
  0 <= index < 5 ->
  queue_after ls [index] (map Timeout ws) = []
  \/ (queue_after ls [index] (map Timeout ws) = [index + Z.of_nat (List.length ws)]
      /\ index + Z.of_nat (List.length ws) < 5).
Proof.
  induction ws as [|w ws IH]; intros index Hi.
  - right. cbn. rewrite Z.add_0_r. split; [reflexivity|lia].
  - cbn [map queue_after app].
    assert (N : next_step w index = [] \/
                (next_step w index = [index + 1] /\ index + 1 < 5)).
    { unfold next_step.
      destruct (outcome w); auto;
        destruct (index + 1 =? maxIterations) eqn:E; auto;
        apply Z.eqb_neq in E; unfold maxIterations in E; right; split;
        try reflexivity; lia. }
    destruct N as [N|[N Hlt]]; rewrite N.
    + left. apply queue_after_timeouts_nil.
    + destruct (IH (index + 1)) as [H|[H1 H2]]; [lia|now left|right].
      cbn [List.length]. rewrite Nat2Z.inj_succ.
      replace (index + Z.succ (Z.of_nat (List.length ws)))
        with (index + 1 + Z.of_nat (List.length ws)) by lia.
      split; [exact H1 | exact H2].
Qed.

Lemma single_run_queue_any b ws :
  queue_after [click_listener b] [] (Click b :: map Timeout ws) = []
  \/ (queue_after [click_listener b] [] (Click b :: map Timeout ws) =
        [Z.of_nat (List.length ws)]
      /\ (List.length ws < 5)%nat).
Proof.
  cbn [queue_after app]. rewrite listening_self. cbn [repeat].
  destruct (queue_after_chain [click_listener b] ws 0) as [H|[H1 H2]]; try lia.
  - now left.
  - right. split; [exact H1 | lia].
Qed.

Lemma dispatched_after_callback w index n s :
  dispatched (after_callback w index n s) =
  dispatched s ++
  match outcome w with
  | Dispatches =>
      [(nativeElement s, synthesized w (swipeDirection s) (nativeElement s) index n)]
  | _ => []
  end.
Proof.
  unfold after_callback, schedule.
  destruct (outcome w); try (destruct (index + 1 =? maxIterations)); cbn;
    rewrite ?app_nil_r; reflexivity.
Qed.

Lemma firstn_succ {A} (l : list A) (k : nat) :
  firstn (S k) l =
  firstn k l ++ match nth_error l k with Some x => [x] | None => [] end.
Proof.
  revert k. induction l as [|x l IH]; intros [|k]; cbn; try reflexivity.
  f_equal. apply IH.
Qed.

Lemma app_one_neq {A} (l : list A) (x : A) : l <> l ++ [x].
Proof.
  intros H. apply (f_equal (@List.length A)) in H.
  rewrite length_app in H. cbn in H. lia.
Qed.

(** What step [k] of a run dispatches, if anything. *)
Lemma dispatches_at_inv b ws s k tgt e :
  idle b s ->
  dispatches_at b ws s k tgt e ->
  exists w,
    nth_error ws k = Some w /\ (k <= 4)%nat /\ outcome w = Dispatches /\
    tgt = nativeElement s /\
    e = synthesized w (swipeDirection s) (nativeElement s) (Z.of_nat k)
          maxIterations.
Proof.
  intros [Hl Ht] H. unfold dispatches_at, run_upto in H.
  rewrite firstn_succ in H.
  destruct (nth_error ws k) as [w|] eqn:Ek.
  2:{ rewrite app_nil_r in H. now apply app_one_neq in H. }
  assert (Hk : List.length (firstn k ws) = k).
  { apply firstn_length_le. apply Nat.lt_le_incl.
    apply nth_error_Some. congruence. }
  rewrite map_app, app_comm_cons, run_app in H. cbn [map] in H.
  set (sk := run (Click b :: map Timeout (firstn k ws)) s) in *.
  assert (Hq : timers s = map step_timer []) by exact Ht.
  pose proof (run_timers (Click b :: map Timeout (firstn k ws)) [] s Hq) as T.
  fold sk in T. rewrite Hl in T.
  pose proof (same_attachment_run (Click b :: map Timeout (firstn k ws)) s)
    as (_ & _ & _ & Ad & Ae & _).
  fold sk in Ad, Ae.
  change (run [Timeout w] sk) with (timeout w sk) in H.
  destruct (single_run_queue_any b (firstn k ws)) as [Q|[Q Hlt]];
    rewrite Q in T.
  - rewrite timeout_nil in H by exact T. now apply app_one_neq in H.
  - rewrite Hk in *. cbn [map] in T.
    rewrite (timeout_eq w sk _ _ _ _ T), dispatched_after_callback in H.
    cbn [dispatched set_timers nativeElement swipeDirection] in H.
    apply app_inv_head in H. exists w.
    destruct (outcome w); try discriminate.
    injection H as H1 H2. rewrite Ad, Ae in *.
    repeat split; try congruence. lia.
Qed.



(** ** Events of arbitrary runs *)

Lemma trace_from_inputs ls inputs : forall q x,
  In x (trace ls q inputs) -> In (Timeout (snd x)) inputs.
Proof.
  induction inputs as [|[tgt|w] inputs IH]; intros q x H; cbn [trace] in H.
  - contradiction.
  - right. eapply IH, H.
  - destruct q as [|index q].
    + right. eapply IH, H.
    + destruct H as [<-|H]; [now left|right; eapply IH, H].
Qed.

Lemma events_of_In d host tr ev :
  In ev (events_of d host tr) ->
  exists x, In x tr /\ outcome (snd x) = Dispatches /\
            ev = (host, synthesized (snd x) d host (fst x) maxIterations).
Proof.
  unfold events_of. rewrite in_flat_map. intros (x & Hx & H).
  exists x. destruct (outcome (snd x)); try contradiction.
  destruct H as [<-|[]]. auto.
Qed.

Lemma events_of_length d host tr :
  (List.length (events_of d host tr) <= List.length tr)%nat.
Proof.
  unfold events_of. induction tr as [|x tr IH]; cbn [flat_map]; [reflexivity|].
  rewrite length_app. cbn [List.length].
  destruct (outcome (snd x)); cbn [List.length]; lia.
Qed.

(** Every event appended by a run is the event of some step under some
    snapshot of the inputs. *)
Lemma run_appended inputs q s :
  timers s = map step_timer q ->
  exists new,
    appended s (run inputs s) new /\
    Forall (fun ev => exists w index,
              In (Timeout w) inputs /\
              ev = (nativeElement s,
                    synthesized w (swipeDirection s) (nativeElement s) index
                      maxIterations)) new.
Proof.
  intros H. eexists. split; [apply (run_dispatched inputs q s H)|].
  apply Forall_forall. intros ev Hev.
  apply events_of_In in Hev. destruct Hev as ([index w] & Hx & _ & ->).
  exists w, index. split; [|reflexivity].
  apply (trace_from_inputs _ _ _ _ Hx).
Qed.

Lemma synthesized_built w d host index n :
  built_as_synthesized (synthesized w d host index n).
Proof.
  unfold synthesized. destruct (supportTouchEvent w); cbn; auto.
Qed.

Lemma trace_timeouts_nil ls ws : trace ls [] (map Timeout ws) = [].
Proof. induction ws as [|w ws IH]; [reflexivity|exact IH]. Qed.

Lemma trace_chain_length ls ws : forall index,
  0 <= index < 5 ->
  Z.of_nat (List.length (trace ls [index] (map Timeout ws))) <= 5 - index.
Proof.
  induction ws as [|w ws IH]; intros index Hi;
    [cbn [map trace List.length]; lia|].
  cbn [map trace app List.length].
  assert (N : next_step w index = [] \/
              (next_step w index = [index + 1] /\ index + 1 < 5)).
  { unfold next_step.
    destruct (outcome w); auto;
      destruct (index + 1 =? maxIterations) eqn:E; auto;
      apply Z.eqb_neq in E; unfold maxIterations in E; right; split;
      try reflexivity; lia. }
  destruct N as [N|[N Hlt]]; rewrite N.
  - rewrite trace_timeouts_nil. cbn [List.length]. lia.
  - specialize (IH (index + 1)). lia.
Qed.

Lemma single_run_trace_length b ws :
  (List.length (trace [click_listener b] [] (Click b :: map Timeout ws)) <= 5)%nat.
Proof.
  cbn [trace app]. rewrite listening_self. cbn [repeat].
  pose proof (trace_chain_length [click_listener b] ws 0). lia.
Qed.

Lemma same_attachment_direction s s' :
  same_attachment s s' -> same_direction_and_trigger s s'.
Proof. intros (_ & _ & Hb & Hd & _). now split. Qed.

Lemma In_timeout_map w b ws : In (Timeout w) (Click b :: map Timeout ws) -> In w ws.
Proof.
  intros [H|H]; [discriminate|].
  apply in_map_iff in H. destruct H as (w' & E & H). now injection E as <-.
Qed.

Lemma events_of_quiet d host (l : list (Z * Platform)) :
  Forall (fun x => quiet (snd x)) l ->
  events_of d host l =
  map (fun x => (host, synthesized (snd x) d host (fst x) maxIterations)) l.
Proof.
  unfold events_of. induction 1 as [|x l Hx _ IH]; [reflexivity|].
  cbn [flat_map map]. rewrite IH, (outcome_quiet _ Hx). reflexivity.
Qed.

Lemma Forall_combine_snd {A B} (P : B -> Prop) (l1 : list A) (l2 : list B) :
  Forall P l2 -> Forall (fun x => P (snd x)) (combine l1 l2).
Proof.
  intros H. apply Forall_forall. intros [a b] Hab.
  apply in_combine_r in Hab. rewrite Forall_forall in H. now apply H.
Qed.

Lemma Forall_quiet_continues ws : Forall quiet ws -> Forall continues ws.
Proof.
  intros H. eapply Forall_impl; [|exact H]. apply continues_quiet.
Qed.

(** A run of five expiries without a raising call appends five events. *)
Lemma quiet_run_events b ws s :
  idle b s -> Forall quiet ws -> List.length ws = 5%nat ->
  dispatched (run (Click b :: map Timeout ws) s) =
  dispatched s ++
  map (fun x => (nativeElement s,
                 synthesized (snd x) (swipeDirection s) (nativeElement s)
                   (fst x) maxIterations))
      (combine [0; 1; 2; 3; 4] ws).
Proof.
  intros [Hl Ht] Hq Hn.
  assert (Hq0 : timers s = map step_timer []) by exact Ht.
  rewrite (run_dispatched _ [] s Hq0), Hl.
  rewrite single_run_trace by now apply Forall_quiet_continues.
  rewrite events_of_quiet by now apply Forall_combine_snd.
  reflexivity.
Qed.

(** ** A run under the touch strategy *)

Lemma touch_run_timers b ws s k :
  idle b s -> Forall continues ws -> (k <= List.length ws)%nat ->
  timers (run_upto b ws k s) =
  if (k <? 5)%nat then [step_timer (Z.of_nat k)] else [].
Proof.
  intros [Hl Ht] C Hk. unfold run_upto.
  assert (Hq : timers s = map step_timer []) by exact Ht.
  rewrite (run_timers _ [] s Hq), Hl.
  rewrite single_run_queue by now apply Forall_firstn_list.
  rewrite firstn_length_le by exact Hk.
  now destruct (k <? 5)%nat.
Qed.

Lemma run_upto_succ b ws k w s :
  nth_error ws k = Some w ->
  run_upto b ws (S k) s = timeout w (run_upto b ws k s).
Proof.
  intros H. unfold run_upto. rewrite firstn_succ, H.
  now rewrite map_app, app_comm_cons, run_app.
Qed.

(** ** Two overlapping runs *)

Lemma Interleaved_length {A} (l1 l2 l : list A) :
  Interleaved l1 l2 l ->
  List.length l = (List.length l1 + List.length l2)%nat.
Proof. induction 1; cbn; lia. Qed.

Lemma Interleaved_map {A B} (f : A -> B) (l1 l2 l : list A) :
  Interleaved l1 l2 l -> Interleaved (map f l1) (map f l2) (map f l).
Proof. induction 1; cbn; constructor; assumption. Qed.

Lemma map_fst_combine {A B} (l1 : list A) : forall (l2 : list B),
  List.length l1 = List.length l2 -> map fst (combine l1 l2) = l1.
Proof.
  induction l1 as [|a l1 IH]; intros [|b l2] H; try discriminate; cbn.
  - reflexivity.
  - f_equal. apply IH. now injection H.
Qed.

Ltac interleave :=
  solve [ apply Interleaved_nil
        | apply Interleaved_left; interleave
        | apply Interleaved_right; interleave ].

(** A second click while the first run has a timer pending: both timers are
    in the queue, and while no exception escapes the ten steps of the two
    runs execute, interleaved, before the queue is empty. *)
Lemma overlap_trace b ws1 ws2 :
  (List.length ws1 < 5)%nat ->
  (List.length ws1 + List.length ws2 = 10)%nat ->
  Forall continues ws1 -> Forall continues ws2 ->
  let inputs := Click b :: map Timeout ws1 ++ Click b :: map Timeout ws2 in
  exists steps,
    trace [click_listener b] [] inputs = combine steps (ws1 ++ ws2)
    /\ Interleaved [0; 1; 2; 3; 4] [0; 1; 2; 3; 4] steps
    /\ queue_after [click_listener b] [] inputs = []
    /\ queue_after [click_listener b] []
         (Click b :: map Timeout ws1 ++ [Click b]) =
       [Z.of_nat (List.length ws1); 0].
Proof.
  intros H1 H2 C1 C2 inputs.
  exists (map fst (trace [click_listener b] [] inputs)). subst inputs.
  destruct ws1 as [|a1 [|a2 [|a3 [|a4 [|a5 ws1]]]]];
    [..|exfalso; cbn in H1; lia];
    do 10 (try (destruct ws2 as [|?w ws2]; [exfalso; cbn in H2; lia|]));
    (destruct ws2 as [|?w ws2]; [|exfalso; cbn in H2; lia]);
    repeat match goal with
           | H : Forall _ (_ :: _) |- _ =>
               apply Forall_cons_iff in H; destruct H as [? H]
           end;
    cbn [map app trace queue_after]; rewrite !listening_self;
    repeat (cbn [map app trace queue_after repeat];
            rewrite ?next_step_continues by assumption;
            cbn [Z.add Z.eqb Pos.add Pos.succ Pos.eqb maxIterations]);
    cbn [map fst combine List.length Z.of_nat Pos.of_succ_nat Pos.succ];
    (split; [reflexivity|]); (split; [interleave|split; reflexivity]).
Qed.

(** * Further lemmas *)

Lemma selfCheck_eq s c :
  itemSliding s = Some c ->
  selfCheck s =
  (Normal tt, set_console (console s ++ panel_warnings (itemOptionsList s)) s).
Proof.
  intros H. unfold selfCheck, bind, get. rewrite H. cbn.
  destruct (itemOptionsList s) as [|o [|o' l]]; cbn [List.length panel_warnings].
  - reflexivity.
  - cbn. rewrite app_nil_r. f_equal. now destruct s.
  - replace (1 <? Z.of_nat (S (S (List.length l)))) with true
      by (symmetry; apply Z.ltb_lt; lia).
    replace (Z.of_nat (S (S (List.length l))) =? 0) with false
      by (symmetry; apply Z.eqb_neq; lia).
    reflexivity.
Qed.

Lemma ngAfterViewInit_eq s c :
  itemSliding s = Some c ->
  ngAfterViewInit s =
  (Normal tt,
   let s1 :=
     set_revealButton (querySelector s button_selector)
       (set_swipeDirection (Some (selected (itemOptionsList s)))
          (set_console (console s ++ panel_warnings (itemOptionsList s)) s)) in
   match querySelector s button_selector with
   | None => log_console missing_trigger_warning s1
   | Some b => set_listeners (listeners s ++ [click_listener b]) s1
   end).
Proof.
  intros H. unfold ngAfterViewInit, bind.
  rewrite (selfCheck_eq s c H), init_eq. reflexivity.
Qed.

(** ** The queue of step indices: range, work and termination *)

Lemma work_cons index q : work (index :: q) = maxIterations - index + work q.
Proof. reflexivity. Qed.

Lemma work_app q1 q2 : work (q1 ++ q2) = work q1 + work q2.
Proof.
  unfold work. induction q1 as [|i q1 IH]; cbn [app fold_right]; lia.
Qed.

Lemma work_repeat_zero k : work (repeat 0 k) = 5 * Z.of_nat k.
Proof.
  unfold work. induction k as [|k IH]; [reflexivity|].
  cbn [repeat fold_right]. rewrite IH. unfold maxIterations. lia.
Qed.

Lemma work_nonneg q : in_range q -> 0 <= work q.
Proof.
  unfold work, in_range, maxIterations.
  induction 1 as [|i q Hi _ IH]; cbn [fold_right]; lia.
Qed.

Lemma work_zero q : in_range q -> work q <= 0 -> q = [].
Proof.
  intros H. destruct H as [|i q Hi Hq]; [reflexivity|].
  pose proof (work_nonneg q Hq). unfold work in *. cbn [fold_right].
  unfold maxIterations in *. lia.
Qed.

Lemma in_range_repeat_zero k : in_range (repeat 0 k).
Proof.
  unfold in_range, maxIterations.
  induction k; cbn; constructor; [lia|assumption].
Qed.

(** What the callback of a step in range leaves in the queue. *)
Lemma next_step_in_range w index :
  0 <= index < maxIterations ->
  in_range (next_step w index)
  /\ work (next_step w index) <= maxIterations - index - 1
  /\ (continues w -> work (next_step w index) = maxIterations - index - 1).
Proof.
  intros Hi. unfold next_step, in_range, work, maxIterations in *.
  destruct (outcome w) eqn:E;
    try (destruct (index + 1 =? 5) eqn:E5;
         [apply Z.eqb_eq in E5 | apply Z.eqb_neq in E5]);
    cbn [fold_right]; repeat split; try constructor; try constructor;
    try lia.
  intros C. now elim (C c).
Qed.

Lemma queue_after_in_range ls inputs : forall q,
  in_range q -> in_range (queue_after ls q inputs).
Proof.
  induction inputs as [|[tgt|w] inputs IH]; intros q H; cbn [queue_after].
  - exact H.
  - apply IH. apply Forall_app. split; [exact H|apply in_range_repeat_zero].
  - destruct q as [|index q]; [now apply IH|].
    apply IH. inversion H as [|? ? Hi Hq]; subst.
    apply Forall_app. split; [exact Hq|].
    now apply next_step_in_range.
Qed.

(** Steps run plus work left never exceed the work at the start plus five
    steps per run started, and equal it while no exception escapes. *)
Lemma work_balance ls inputs : forall q,
  in_range q ->
  Z.of_nat (List.length (trace ls q inputs)) + work (queue_after ls q inputs)
    <= work q + 5 * Z.of_nat (started ls inputs)
  /\ ((forall w, In (Timeout w) inputs -> continues w) ->
      Z.of_nat (List.length (trace ls q inputs)) + work (queue_after ls q inputs)
        = work q + 5 * Z.of_nat (started ls inputs)).
Proof.
  induction inputs as [|[tgt|w] inputs IH]; intros q H;
    cbn [trace queue_after started List.length].
  - split; [lia|intros _; lia].
  - assert (R : in_range (q ++ repeat 0 (listening tgt ls)))
      by (apply Forall_app; split; [exact H|apply in_range_repeat_zero]).
    destruct (IH _ R) as [A B].
    rewrite work_app, work_repeat_zero in A, B.
    split; [lia|]. intros C. rewrite B; [lia|].
    intros w Hw. apply C. now right.
  - destruct q as [|index q].
    + destruct (IH [] H) as [A B]. split; [exact A|].
      intros C. apply B. intros w' Hw. apply C. now right.
    + inversion H as [|? ? Hi Hq]; subst.
      destruct (next_step_in_range w index Hi) as (N1 & N2 & N3).
      assert (R : in_range (q ++ next_step w index))
        by (apply Forall_app; now split).
      destruct (IH _ R) as [A B]. rewrite work_app in A, B.
      cbn [List.length]. rewrite work_cons, Nat2Z.inj_succ.
      split; [lia|]. intros C.
      specialize (N3 (C w (or_introl eq_refl))).
      assert (B' := B (fun w' Hw => C w' (or_intror Hw))). lia.
Qed.

(** Expiries alone empty a queue in range once they are as many as its
    work. *)
Lemma queue_drains ls ws : forall q,
  in_range q -> work q <= Z.of_nat (List.length ws) ->
  queue_after ls q (map Timeout ws) = [].
Proof.
  induction ws as [|w ws IH]; intros q H Hw.
  - cbn. now apply work_zero.
  - cbn [map queue_after]. destruct q as [|index q].
    + apply queue_after_timeouts_nil.
    + inversion H as [|? ? Hi Hq]; subst.
      destruct (next_step_in_range w index Hi) as (N1 & N2 & _).
      apply IH; [apply Forall_app; now split|].
      rewrite work_app. rewrite work_cons in Hw.
      cbn [List.length] in Hw. lia.
Qed.

Lemma started_click_listener b inputs :
  started [click_listener b] inputs = clicks_on b inputs.
Proof.
  induction inputs as [|[tgt|w] inputs IH]; cbn [started clicks_on];
    [reflexivity| |exact IH].
  rewrite IH. f_equal. unfold listening, listens. cbn.
  rewrite Nat.eqb_sym. now destruct (Nat.eqb tgt b).
Qed.

(** ** What the steps of a trace write *)

(** Each step writes exactly one record: an event or a console entry. *)
Lemma records_of_length d host tr :
  (List.length (events_of d host tr) + List.length (entries_of tr))%nat =
  List.length tr.
Proof.
  unfold events_of, entries_of.
  induction tr as [|x tr IH]; [reflexivity|].
  cbn [flat_map]. rewrite !length_app. cbn [List.length].
  destruct (outcome (snd x)); cbn [List.length]; lia.
Qed.

Lemma entries_of_quiet (l : list (Z * Platform)) :
  Forall (fun x => quiet (snd x)) l -> entries_of l = [].
Proof.
  unfold entries_of. induction 1 as [|x l Hx _ IH]; [reflexivity|].
  cbn [flat_map]. now rewrite IH, (outcome_quiet _ Hx).
Qed.

Lemma replay_eq d host tr s :
  replay d host tr s =
  set_console (console s ++ entries_of tr)
    (set_dispatched (dispatched s ++ events_of d host tr) s).
Proof.
  revert s. unfold replay, events_of, entries_of.
  induction tr as [|x tr IH]; intros s; cbn [fold_left flat_map].
  - rewrite !app_nil_r. now destruct s.
  - rewrite IH. unfold effect. destruct (outcome (snd x)); cbn;
      rewrite <- ?app_assoc; reflexivity.
Qed.

Lemma trace_quiet ls q inputs :
  (forall w, In (Timeout w) inputs -> quiet w) ->
  Forall (fun x => quiet (snd x)) (trace ls q inputs).
Proof.
  intros H. apply Forall_forall. intros x Hx.
  apply H. eapply trace_from_inputs, Hx.
Qed.

Lemma outcome_mouse_raises w :
  supportTouchEvent w = false -> mouse_call_raises w = true ->
  exists c, outcome w = Raises c /\ throws w c = true.
Proof.
  unfold outcome, mouse_call_raises. intros -> H.
  destruct (throws w CreateEvent) eqn:E1; [eauto|].
  destruct (throws w InitMouseEvent) eqn:E2; [eauto|].
  destruct (throws w DispatchEvent) eqn:E3; [eauto|].
  discriminate.
Qed.

Lemma synthesized_identifiers w d host index n :
  Forall (eq (dateNow w)) (event_identifiers (synthesized w d host index n)).
Proof.
  unfold synthesized. destruct (supportTouchEvent w); cbn; repeat constructor.
Qed.

Lemma synthesized_shaped w d host index n :
  shaped_for host (synthesized w d host index n).
Proof.
  unfold synthesized. destruct (supportTouchEvent w); cbn.
  - split; [reflexivity|]. split; [reflexivity|].
    eexists. repeat split.
  - repeat split.
Qed.

Lemma queue_after_beyond ls ws : forall index,
  maxIterations <= index -> Forall continues ws ->
  queue_after ls [index] (map Timeout ws) =
  [index + Z.of_nat (List.length ws)].
Proof.
  induction ws as [|w ws IH]; intros index Hi C.
  - cbn. now rewrite Z.add_0_r.
  - apply Forall_cons_iff in C. destruct C as [Cw C].
    cbn [map queue_after app]. rewrite (next_step_continues w index Cw).
    replace (index + 1 =? maxIterations) with false
      by (symmetry; apply Z.eqb_neq; lia).
    rewrite IH by (try assumption; lia).
    cbn [List.length]. f_equal. lia.
Qed.

Lemma single_run_timers_at b ws k s :
  idle b s -> Forall continues (firstn k ws) ->
  (k < 5)%nat -> (k < List.length ws)%nat ->
  timers (run_upto b ws k s) = [step_timer (Z.of_nat k)].
Proof.
  intros [Hl Ht] C Hk Hlen. unfold run_upto.
  assert (Hq : timers s = map step_timer []) by exact Ht.
  rewrite (run_timers _ [] s Hq), Hl, single_run_queue by exact C.
  rewrite firstn_length_le by lia.
  apply Nat.ltb_lt in Hk. now rewrite Hk.
Qed.

(** ** A step that gets as far as [dispatchEvent] *)

Lemma step_dispatches b ws s k w :
  idle b s ->
  Forall continues (firstn k ws) ->
  (k < 5)%nat ->
  nth_error ws k = Some w ->
  outcome w = Dispatches ->
  dispatches_at b ws s k (nativeElement s)
    (synthesized w (swipeDirection s) (nativeElement s) (Z.of_nat k)
       maxIterations).
Proof.
  intros Hi C Hk Hw E.
  assert (Hlen : (k < List.length ws)%nat)
    by (apply nth_error_Some; congruence).
  pose proof (single_run_timers_at b ws k s Hi C Hk Hlen) as T.
  pose proof (same_attachment_run (Click b :: map Timeout (firstn k ws)) s)
    as (_ & _ & _ & Ad & Ae & _).
  fold (run_upto b ws k s) in Ad, Ae.
  unfold dispatches_at.
  rewrite (run_upto_succ b ws k w s Hw), (timeout_eq w _ _ _ _ _ T).
  rewrite dispatched_after_callback, E.
  cbn [nativeElement swipeDirection dispatched set_timers].
  now rewrite Ad, Ae.
Qed.


(** ** Clicks of the user *)

Lemma clicks_on_app b l1 l2 :
  clicks_on b (l1 ++ l2) = (clicks_on b l1 + clicks_on b l2)%nat.
Proof.
  induction l1 as [|[tgt|w] l1 IH]; cbn [app clicks_on]; [reflexivity| |exact IH].
  rewrite IH. lia.
Qed.

Lemma clicks_on_user_click b path :
  clicks_on b (user_click path) = count_occ Nat.eq_dec path b.
Proof.
  unfold user_click. induction path as [|x path IH]; [reflexivity|].
  cbn [map clicks_on count_occ]. rewrite IH.
  destruct (Nat.eq_dec x b) as [->|N].
  - now rewrite Nat.eqb_refl.
  - apply Nat.eqb_neq in N. now rewrite N.
Qed.

Lemma clicks_on_deliver b us :
  clicks_on b (deliver us) = trigger_clicks b us.
Proof.
  unfold deliver. induction us as [|[path|w] us IH];
    cbn [flat_map trigger_clicks]; [reflexivity| |exact IH].
  now rewrite clicks_on_app, clicks_on_user_click, IH.
Qed.

Lemma timeout_in_deliver w us :
  In (Timeout w) (deliver us) -> In (TimerExpiry w) us.
Proof.
  unfold deliver. rewrite in_flat_map. intros ([path|w'] & Hu & H).
  - unfold user_click in H. apply in_map_iff in H.
    destruct H as (x & E & _). discriminate.
  - destruct H as [E|[]]. now injection E as <-.
Qed.

(** * Exact arithmetic on numbers *)





Lemma Zpos_shl m n : 0 <= n -> Zpos (shift_left m n) = Zpos m * 2 ^ n.
Proof.
  intros H. destruct n as [|p|p]; cbn [shift_left]; try lia.
  induction p using Pos.peano_ind.
  - cbn. lia.
  - rewrite Pos.iter_succ. rewrite Pos2Z.inj_succ, Z.pow_succ_r by lia.
    rewrite Pos2Z.inj_xO, IHp by lia. lia.
Qed.










Lemma canon_mantissa s m e :
  mantissa_digits m <= 53 ->
  match canonical s m e with
  | S754_finite s' m' e' =>
      s' = s /\ e' = mantissa_digits m + e - 53 /\ Zpos m' = Zpos m * 2 ^ (53 - mantissa_digits m)
  | _ => False
  end.
Proof.
  intros H. unfold canonical. repeat split. apply Zpos_shl. lia.
Qed.







(** ** The horizontal coordinate for an exact start edge *)





(** * The claims *)

(** C3.  The direction selector of [init] yields [toRight] exactly when the
    first options panel exists and its anchor is ["start"]; for every other
    anchor of the first panel, and when there is no options panel at all, it
    yields [toLeft]. *)
Theorem direction_selector (s : State) :
  (swipeDirection (snd (init s)) = Some toRight
   <-> first_anchor_is_start (itemOptionsList s))
  /\ (swipeDirection (snd (init s)) = Some toLeft
      <-> ~ first_anchor_is_start (itemOptionsList s)).
Proof.
  assert (E : swipeDirection (snd (init s)) = Some (selected (itemOptionsList s))).
  { rewrite init_eq. cbn. now destruct (querySelector s button_selector). }
  rewrite E. pose proof (selected_start (itemOptionsList s)) as [H1 H2].
  destruct (selected (itemOptionsList s)) eqn:D; split; split;
    try discriminate; try reflexivity; intros H.
  - apply H2 in H. discriminate.
  - intros F. apply H2 in F. discriminate.
  - now apply H1.
  - exfalso. apply H. now apply H1.
Qed.

(** C4.  When the sliding container is absent, [ngAfterViewInit] raises the
    missing-container error and leaves the state as it found it: no warning,
    no direction, no trigger, no listener.  From a state with no listener and
    no pending timer, no sequence of clicks and timer expiries dispatches an
    event afterwards. *)
Theorem missing_container_aborts_setup (s : State) :
  itemSliding s = None ->
  ngAfterViewInit s = (Throw missing_container_error, s)
  /\ (listeners s = [] -> timers s = [] ->
      forall inputs,
        let s' := run inputs (run_task ngAfterViewInit s) in
        listeners s' = [] /\ timers s' = [] /\ dispatched s' = dispatched s).
Proof.
  intros H.
  assert (E : ngAfterViewInit s = (Throw missing_container_error, s)).
  { unfold ngAfterViewInit, bind. now rewrite selfCheck_missing. }
  split; [exact E|]. intros Hl Ht inputs. cbn zeta.
  unfold run_task. rewrite E.
  rewrite run_inert by assumption. cbn. auto.
Qed.

Lemma missing_container_aborts_setup_witness :
  let s := created None [{| side := "end" |}] 1 (fun _ => Some 2%nat) in
  ngAfterViewInit s = (Throw missing_container_error, s)
  /\ dispatched (run [Click 2] (run_task ngAfterViewInit s)) = [].
Proof.
  intros s.
  destruct (missing_container_aborts_setup s eq_refl) as [E F].
  split; [exact E|].
  exact (proj2 (proj2 (F eq_refl eq_refl [Click 2%nat]))).
Defined.

(** C7.  When the container is present and [querySelector] finds no element
    with the marker attribute, [ngAfterViewInit] completes normally, its last
    console entry is the missing-trigger warning, and it registers no
    listener and no timer.  From a state with no listener and no pending
    timer the directive is inert afterwards: no sequence of clicks and timer
    expiries changes the state, so nothing is ever scheduled or dispatched. *)
Theorem missing_trigger_leaves_inert (s : State) (c : IonItemSliding) :
  itemSliding s = Some c ->
  querySelector s button_selector = None ->
  let s' := snd (ngAfterViewInit s) in
  fst (ngAfterViewInit s) = Normal tt
  /\ (exists warnings, console s' = console s ++ warnings ++ [missing_trigger_warning])
  /\ revealButton s' = None
  /\ listeners s' = listeners s
  /\ timers s' = timers s
  /\ dispatched s' = dispatched s
  /\ (listeners s = [] -> timers s = [] ->
      forall inputs, run inputs (run_task ngAfterViewInit s) = s').
Proof.
  intros Hc Hq. destruct (ngAfterViewInit_present s c Hc) as (warnings & _ & E).
  rewrite Hq in E. cbn zeta. rewrite E. cbn [fst snd].
  split; [reflexivity|]. split.
  { exists warnings. cbn. now rewrite app_assoc. }
  repeat (split; [reflexivity|]).
  intros Hl Ht inputs. unfold run_task. rewrite E.
  apply run_inert; assumption.
Qed.

Lemma missing_trigger_leaves_inert_witness :
  let s := created (Some (IonItemSlidingRef 1)) [{| side := "end" |}] 1
             (fun _ => None) in
  console (snd (ngAfterViewInit s)) = [missing_trigger_warning]
  /\ run [Click 1; Click 2] (run_task ngAfterViewInit s) = snd (ngAfterViewInit s).
Proof.
  intros s.
  pose proof (missing_trigger_leaves_inert s (IonItemSlidingRef 1) eq_refl eq_refl)
    as (_ & _ & _ & _ & _ & _ & F).
  split; [reflexivity|].
  exact (F eq_refl eq_refl [Click 1%nat; Click 2%nat]).
Defined.

(** C1 (as amended).  A run started by a click in an idle state, during
    which no platform call raises, dispatches exactly five events on the
    host, one per timer expiry: the first has the first entry of the active
    triple of event types, the fifth the second entry, the three in between
    the third entry, so the phases are start, move, move, move, end.  After
    the fifth expiry no timer is pending and further expiries dispatch
    nothing; [sendEvents] at index 5 schedules nothing. *)
Theorem full_run_dispatches_five_in_order
    (s : State) (b : Element) (w0 w1 w2 w3 w4 : Platform) :
  idle b s ->
  quiet w0 -> quiet w1 -> quiet w2 -> quiet w3 -> quiet w4 ->
  let ws := [w0; w1; w2; w3; w4] in
  let s' := run (Click b :: map Timeout ws) s in
  (exists e0 e1 e2 e3 e4,
     dispatched s' =
       dispatched s ++
       map (pair (nativeElement s)) [e0; e1; e2; e3; e4]
     /\ event_type e0 = array_get (active_types w0) 0
     /\ event_type e1 = array_get (active_types w1) 2
     /\ event_type e2 = array_get (active_types w2) 2
     /\ event_type e3 = array_get (active_types w3) 2
     /\ event_type e4 = array_get (active_types w4) 1
     /\ map (fun e => phase_of (event_type e)) [e0; e1; e2; e3; e4] =
        [Some Start; Some Move; Some Move; Some Move; Some End])
  /\ (forall k, (k <= 5)%nat ->
        List.length
          (dispatched (run (Click b :: map Timeout (firstn k ws)) s)) =
        (List.length (dispatched s) + k)%nat)
  /\ timers s' = []
  /\ (forall more, dispatched (run (map Timeout more) s') = dispatched s')
  /\ sendEvents 5 s' = (Normal tt, s').
Proof.
  intros [Hl Ht] Q0 Q1 Q2 Q3 Q4 ws s'.
  assert (Hq : timers s = map step_timer []) by exact Ht.
  assert (C : Forall continues ws)
    by (repeat constructor; now apply continues_quiet).
  assert (T : timers s' = []).
  { unfold s'. rewrite (run_timers _ [] s Hq), Hl, single_run_queue by exact C.
    reflexivity. }
  split; [|split; [|split; [exact T|split]]].
  - exists (synthesized w0 (swipeDirection s) (nativeElement s) 0 maxIterations),
           (synthesized w1 (swipeDirection s) (nativeElement s) 1 maxIterations),
           (synthesized w2 (swipeDirection s) (nativeElement s) 2 maxIterations),
           (synthesized w3 (swipeDirection s) (nativeElement s) 3 maxIterations),
           (synthesized w4 (swipeDirection s) (nativeElement s) 4 maxIterations).
    split.
    + unfold s'. rewrite (run_dispatched _ [] s Hq), Hl, single_run_trace by exact C.
      unfold events_of, ws. cbn [combine flat_map fst snd].
      rewrite !outcome_quiet by assumption. reflexivity.
    + do 5 (split; [apply synthesized_type|]).
      cbn [map]. now rewrite !synthesized_phase.
  - intros k Hk.
    assert (C' : Forall continues (firstn k ws)).
    { now apply Forall_firstn_list. }
    rewrite (run_dispatched _ [] s Hq), Hl, single_run_trace by exact C'.
    rewrite length_app. f_equal.
    unfold ws.
    do 6 (destruct k as [|k];
          [cbn [firstn combine events_of flat_map fst snd];
           rewrite ?outcome_quiet by assumption; reflexivity|]).
    lia.
  - intros more. now rewrite run_timeouts_idle.
  - apply sendEvents_eq.
Qed.

Lemma full_run_dispatches_five_in_order_witness :
  let s := sample_attachment "end" in
  let s' := run (Click 2 :: repeat (Timeout touch_platform) 5) s in
  map (fun x => event_type (snd x)) (dispatched s') =
    ["touchstart"; "touchmove"; "touchmove"; "touchmove"; "touchend"]
  /\ timers s' = [].
Proof.
  intros s s'.
  pose proof (full_run_dispatches_five_in_order s 2%nat
                touch_platform touch_platform touch_platform touch_platform
                touch_platform (idle_sample "end")
                quiet_touch_platform quiet_touch_platform quiet_touch_platform
                quiet_touch_platform quiet_touch_platform)
    as (_ & _ & T & _).
  split; [reflexivity | exact T].
Defined.

(** C1 as stated fails when [Touch] and [TouchEvent] are defined but the
    constructor of [Touch] raises: all five steps of the run execute, each
    logs the exception it caught, and no event is dispatched. *)
Lemma full_run_without_events :
  let s := sample_attachment "end" in
  let s' := run (Click 2 :: repeat (Timeout illegal_constructor_platform) 5) s in
  dispatched s' = []
  /\ List.length (dispatched s') <> 5%nat
  /\ console s' = repeat (ErrorLog (PlatformExn NewTouch)) 5
  /\ timers s' = [].
Proof.
  cbv zeta. repeat split; try reflexivity. cbn. discriminate.
Qed.




(** C5.  In a run started by a click in an idle state, if [Touch] and
    [TouchEvent] are both defined under every snapshot, every event the run
    dispatches is a touch event with a type of the touch triple; if under
    every snapshot one of the two is undefined, every event the run
    dispatches is a mouse event with a type of the mouse triple.  In both
    cases the run dispatches at most five events, and exactly five when it
    has five expiries and no platform call raises. *)
Theorem single_strategy_per_run
    (s : State) (b : Element) (ws : list Platform) :
  idle b s ->
  (Forall (fun w => typeofTouch w = true /\ typeofTouchEvent w = true) ws ->
   exists new,
     appended s (run (Click b :: map Timeout ws) s) new
     /\ Forall (fun ev =>
                  is_touch (snd ev) = true /\
                  In (event_type (snd ev)) touchEvents) new
     /\ (List.length new <= 5)%nat
     /\ (Forall quiet ws -> List.length ws = 5%nat -> List.length new = 5%nat))
  /\ (Forall (fun w => typeofTouch w = false \/ typeofTouchEvent w = false) ws ->
      exists new,
        appended s (run (Click b :: map Timeout ws) s) new
        /\ Forall (fun ev =>
                     is_touch (snd ev) = false /\
                     In (event_type (snd ev)) mouseEvents) new
        /\ (List.length new <= 5)%nat
        /\ (Forall quiet ws -> List.length ws = 5%nat ->
            List.length new = 5%nat)).
Proof.
  intros Hi. pose proof Hi as [Hl Hq].
  assert (Hq0 : timers s = map step_timer []) by exact Hq.
  assert (G : forall t,
    Forall (fun w => typeofTouch w && typeofTouchEvent w = t) ws ->
    exists new,
      appended s (run (Click b :: map Timeout ws) s) new
      /\ Forall (fun ev =>
                   is_touch (snd ev) = t /\
                   In (event_type (snd ev))
                      (if t then touchEvents else mouseEvents)) new
      /\ (List.length new <= 5)%nat
      /\ (Forall quiet ws -> List.length ws = 5%nat ->
          List.length new = 5%nat)).
  { intros t Ht.
    eexists. split; [apply (run_dispatched _ [] s Hq0)|]. rewrite Hl.
    split; [|split].
    - apply Forall_forall. intros ev Hev.
      apply events_of_In in Hev. destruct Hev as ([index w] & Hx & _ & ->).
      apply trace_from_inputs, In_timeout_map in Hx. cbn [fst snd] in *.
      rewrite Forall_forall in Ht. specialize (Ht w Hx).
      assert (Hs : supportTouchEvent w = t) by exact Ht.
      split; [now rewrite synthesized_is_touch|].
      pose proof (synthesized_type_active w (swipeDirection s) (nativeElement s)
                    index maxIterations) as A.
      unfold active_types in A. now rewrite Hs in A.
    - etransitivity; [apply events_of_length|apply single_run_trace_length].
    - intros Q N.
      pose proof (quiet_run_events b ws s Hi Q N) as E.
      rewrite (run_dispatched _ [] s Hq0), Hl in E. apply app_inv_head in E.
      rewrite E, length_map, length_combine, N. reflexivity. }
  split; intros H.
  - apply (G true). eapply Forall_impl; [|exact H].
    intros w [-> ->]. reflexivity.
  - apply (G false). eapply Forall_impl; [|exact H].
    intros w [-> | ->]; [reflexivity|apply andb_false_r].
Qed.

Lemma single_strategy_per_run_witness :
  let half :=
    {| typeofTouch := true; typeofTouchEvent := false;
       boundingClientRect := sample_rect; dateNow := 0;
       throws := fun _ => false |} in
  let s := sample_attachment "start" in
  idle 2 s
  /\ (exists new,
        appended s (run (Click 2 :: map Timeout (repeat touch_platform 5)) s) new
        /\ Forall (fun ev => is_touch (snd ev) = true) new
        /\ List.length new = 5%nat)
  /\ (exists new,
        appended s (run (Click 2 :: map Timeout (repeat half 5)) s) new
        /\ Forall (fun ev => is_touch (snd ev) = false) new
        /\ List.length new = 5%nat).
Proof.
  intros half s.
  assert (Hi : idle 2 s) by (split; reflexivity).
  destruct (single_strategy_per_run s 2%nat (repeat touch_platform 5) Hi)
    as [T _].
  destruct (single_strategy_per_run s 2%nat (repeat half 5) Hi) as [_ M].
  split; [exact Hi|]. split.
  - destruct T as (new & A & F & _ & N); [repeat constructor|].
    exists new. split; [exact A|]. split.
    + eapply Forall_impl; [|exact F]. intros ev [H _]. exact H.
    + apply N; [repeat constructor|reflexivity].
  - destruct M as (new & A & F & _ & N); [repeat constructor; now right|].
    exists new. split; [exact A|]. split.
    + eapply Forall_impl; [|exact F]. intros ev [H _]. exact H.
    + apply N; [repeat constructor|reflexivity].
Defined.

(** C8.  The setup stores the direction chosen by the selector, and nothing
    that runs afterwards writes it: every sequence of clicks and timer
    expiries, and every call of [sendEvents], of the timer callback, of
    [sendEventsDispatcher] and of the two synthesizers, leaves the direction
    and the trigger element of the directive as they were. *)
Theorem direction_is_fixed_at_setup :
  (forall c options host query,
     swipeDirection (attached (Some c) options host query) =
     Some (selected options))
  /\ (forall inputs s, same_direction_and_trigger s (run inputs s))
  /\ (forall index s, same_direction_and_trigger s (snd (sendEvents index s)))
  /\ (forall w cb s, same_direction_and_trigger s (snd (callback w cb s)))
  /\ (forall w index n s,
        same_direction_and_trigger s (snd (sendEventsDispatcher w index n s)))
  /\ (forall w element type x y s,
        same_direction_and_trigger s (snd (sendTouchEvent w element type x y s)))
  /\ (forall w element type x y s,
        same_direction_and_trigger s (snd (sendMouseEvent w element type x y s))).
Proof.
  split; [|split; [|split; [|split; [|split; [|split]]]]].
  - intros c options host query. unfold attached, run_task.
    destruct (ngAfterViewInit_present (created (Some c) options host query) c
                eq_refl) as (ws & _ & E).
    rewrite E. cbn. now destruct (query button_selector).
  - intros inputs s. apply same_attachment_direction, same_attachment_run.
  - intros index s. rewrite sendEvents_eq.
    apply same_attachment_direction, same_attachment_schedule.
  - intros w [index n] s. unfold callback, bind.
    rewrite sendEventsDispatcher_eq. unfold dispatcher_result.
    destruct (outcome w); rewrite ?sendEvents_eq; cbn [snd];
      try (apply same_attachment_direction;
           eapply same_attachment_trans; [|apply same_attachment_schedule]);
      repeat split.
  - intros w index n s. rewrite sendEventsDispatcher_eq.
    unfold dispatcher_result. destruct (outcome w); repeat split.
  - intros w element type x y s. rewrite sendTouchEvent_eq. cbn [snd].
    destruct (throws w NewTouch), (throws w NewTouchEvent),
      (throws w DispatchEvent); repeat split.
  - intros w element type x y s. rewrite sendMouseEvent_eq.
    destruct (throws w CreateEvent), (throws w InitMouseEvent),
      (throws w DispatchEvent); repeat split.
Qed.

(** C10.  When none of its platform calls raises, [sendTouchEvent]
    dispatches exactly one event, a touch event built with [shiftKey] true
    and an empty [targetTouches], and [sendMouseEvent] dispatches exactly one
    event, a mouse event built with the four modifier keys false; otherwise
    they dispatch nothing.  Hence every event appended by any sequence of
    clicks and timer expiries is built that way.  A run of five expiries
    during which no platform call raises dispatches five touch events, all
    with [shiftKey] true, when [Touch] and [TouchEvent] are defined, and five
    mouse events, all with the four modifier keys false, when one of them is
    not. *)
Theorem synthetic_event_modifiers :
  (forall w element type x y s,
     exists new,
       appended s (snd (sendTouchEvent w element type x y s)) new /\
       Forall (fun ev => exists init,
                 snd ev = TouchEvent type init /\
                 shiftKey init = true /\ targetTouches init = []) new /\
       (throws w NewTouch = false -> throws w NewTouchEvent = false ->
        throws w DispatchEvent = false -> List.length new = 1%nat))
  /\ (forall w element type x y s,
        exists new,
          appended s (snd (sendMouseEvent w element type x y s)) new /\
          Forall (fun ev => exists args,
                    snd ev = MouseEvent type args /\
                    ctrlKeyArg args = false /\ altKeyArg args = false /\
                    shiftKeyArg args = false /\ metaKeyArg args = false) new /\
          (throws w CreateEvent = false -> throws w InitMouseEvent = false ->
           throws w DispatchEvent = false -> List.length new = 1%nat))
  /\ (forall inputs q s,
        timers s = map step_timer q ->
        exists new,
          appended s (run inputs s) new /\
          Forall (fun ev => built_as_synthesized (snd ev)) new)
  /\ (forall b ws s,
        idle b s ->
        Forall (fun w => (typeofTouch w = true /\ typeofTouchEvent w = true)
                         /\ quiet w) ws ->
        List.length ws = 5%nat ->
        exists new,
          appended s (run (Click b :: map Timeout ws) s) new /\
          List.length new = 5%nat /\
          Forall (fun ev => exists type init,
                    snd ev = TouchEvent type init /\ shiftKey init = true /\
                    targetTouches init = []) new)
  /\ (forall b ws s,
        idle b s ->
        Forall (fun w => (typeofTouch w = false \/ typeofTouchEvent w = false)
                         /\ quiet w) ws ->
        List.length ws = 5%nat ->
        exists new,
          appended s (run (Click b :: map Timeout ws) s) new /\
          List.length new = 5%nat /\
          Forall (fun ev => exists type args,
                    snd ev = MouseEvent type args /\
                    ctrlKeyArg args = false /\ altKeyArg args = false /\
                    shiftKeyArg args = false /\ metaKeyArg args = false) new).
Proof.
  split; [|split; [|split; [|split]]].
  - intros w element type x y s. rewrite sendTouchEvent_eq. cbn [snd].
    unfold appended.
    destruct (throws w NewTouch);
      [exists []; cbn; rewrite app_nil_r; repeat split;
       [constructor | discriminate]|].
    destruct (throws w NewTouchEvent);
      [exists []; cbn; rewrite app_nil_r; repeat split;
       [constructor | discriminate]|].
    destruct (throws w DispatchEvent);
      [exists []; cbn; rewrite app_nil_r; repeat split;
       [constructor | discriminate]|].
    eexists. split; [reflexivity|]. split; [|reflexivity].
    repeat constructor. cbn. eexists. repeat split.
  - intros w element type x y s. rewrite sendMouseEvent_eq. unfold appended.
    destruct (throws w CreateEvent);
      [exists []; cbn; rewrite app_nil_r; repeat split;
       [constructor | discriminate]|].
    destruct (throws w InitMouseEvent);
      [exists []; cbn; rewrite app_nil_r; repeat split;
       [constructor | discriminate]|].
    destruct (throws w DispatchEvent);
      [exists []; cbn; rewrite app_nil_r; repeat split;
       [constructor | discriminate]|].
    eexists. split; [reflexivity|]. split; [|reflexivity].
    repeat constructor. cbn. eexists. repeat split.
  - intros inputs q s H.
    destruct (run_appended inputs q s H) as (new & A & F).
    exists new. split; [exact A|].
    eapply Forall_impl; [|exact F].
    intros ev (w & index & _ & ->). apply synthesized_built.
  - intros b ws s Hi Hw N.
    assert (Q : Forall quiet ws).
    { eapply Forall_impl; [|exact Hw]. now intros w [_ H]. }
    eexists. split; [apply (quiet_run_events b ws s Hi Q N)|].
    rewrite length_map, length_combine, N. split; [reflexivity|].
    apply Forall_forall. intros ev Hev.
    apply in_map_iff in Hev. destruct Hev as ([index w] & <- & Hx).
    apply in_combine_r in Hx. rewrite Forall_forall in Hw.
    destruct (Hw w Hx) as [[T1 T2] _]. cbn [fst snd].
    unfold synthesized, supportTouchEvent. rewrite T1, T2. unfold touch_event.
    eexists _, _. repeat split.
  - intros b ws s Hi Hw N.
    assert (Q : Forall quiet ws).
    { eapply Forall_impl; [|exact Hw]. now intros w [_ H]. }
    eexists. split; [apply (quiet_run_events b ws s Hi Q N)|].
    rewrite length_map, length_combine, N. split; [reflexivity|].
    apply Forall_forall. intros ev Hev.
    apply in_map_iff in Hev. destruct Hev as ([index w] & <- & Hx).
    apply in_combine_r in Hx. rewrite Forall_forall in Hw.
    destruct (Hw w Hx) as [T _]. cbn [fst snd].
    assert (S : supportTouchEvent w = false).
    { unfold supportTouchEvent.
      destruct T as [-> | ->]; [reflexivity|apply andb_false_r]. }
    unfold synthesized. rewrite S. unfold mouse_event.
    eexists _, _. repeat split.
Qed.

Lemma synthetic_event_modifiers_witness :
  let s := sample_attachment "end" in
  idle 2 s
  /\ (exists new,
        appended s
          (run (Click 2 :: map Timeout (repeat touch_platform 5)) s) new /\
        List.length new = 5%nat /\
        Forall (fun ev => exists type init,
                  snd ev = TouchEvent type init /\ shiftKey init = true /\
                  targetTouches init = []) new)
  /\ (exists new,
        appended s
          (run (Click 2 :: map Timeout (repeat subpixel_platform 5)) s) new /\
        List.length new = 5%nat /\
        Forall (fun ev => exists type args,
                  snd ev = MouseEvent type args /\
                  ctrlKeyArg args = false /\ altKeyArg args = false /\
                  shiftKeyArg args = false /\ metaKeyArg args = false) new)
  /\ (exists new,
        appended s
          (snd (sendMouseEvent mouse_platform 1 "mousedown"
                  (number_of_Z 360) (number_of_Z 110) s)) new /\
        List.length new = 1%nat).
Proof.
  intros s.
  assert (Hi : idle 2 s) by (split; reflexivity).
  destruct synthetic_event_modifiers as (_ & M1 & _ & T5 & M5).
  split; [exact Hi|]. split; [|split].
  - apply (T5 2%nat (repeat touch_platform 5) s Hi); [|reflexivity].
    repeat constructor.
  - apply (M5 2%nat (repeat subpixel_platform 5) s Hi); [|reflexivity].
    repeat constructor; now right.
  - destruct (M1 mouse_platform 1%nat "mousedown" (number_of_Z 360)
                (number_of_Z 110) s) as (new & A & _ & N).
    exists new. split; [exact A|]. now apply N.
Defined.

(** C6.  [sendTouchEvent] never completes abruptly: when one of its platform
    calls raises, the exception is logged with [console.error] and nothing
    else changes.  In a run of five expiries under snapshots that support
    touch events, whatever calls raise, the timer of step [k] is pending
    after [k] expiries for every [k] below 5, no timer is pending after the
    fifth, and step [k] either dispatches its event on the host or logs the
    exception of a raising call, and writes nothing else. *)
Theorem touch_failure_does_not_abort_run
    (s : State) (b : Element) (ws : list Platform) :
  idle b s ->
  Forall (fun w => supportTouchEvent w = true) ws ->
  List.length ws = 5%nat ->
  (forall w element type x y s0,
     fst (sendTouchEvent w element type x y s0) = Normal tt)
  /\ (forall w element type x y s0 c,
        In c [NewTouch; NewTouchEvent; DispatchEvent] -> throws w c = true ->
        exists c',
          throws w c' = true /\
          snd (sendTouchEvent w element type x y s0) =
          log_console (ErrorLog (PlatformExn c')) s0)
  /\ (forall k, (k < 5)%nat ->
        timers (run_upto b ws k s) = [step_timer (Z.of_nat k)])
  /\ timers (run_upto b ws 5 s) = []
  /\ (forall k w, nth_error ws k = Some w ->
        (exists e,
           dispatches_at b ws s k (nativeElement s) e /\
           console (run_upto b ws (S k) s) = console (run_upto b ws k s))
        \/ (exists c,
              throws w c = true /\
              console (run_upto b ws (S k) s) =
                console (run_upto b ws k s) ++ [ErrorLog (PlatformExn c)] /\
              dispatched (run_upto b ws (S k) s) =
                dispatched (run_upto b ws k s))).
Proof.
  intros Hi Hw N.
  assert (C : Forall continues ws).
  { eapply Forall_impl; [|exact Hw]. apply continues_touch. }
  assert (T : forall k, (k < 5)%nat ->
            timers (run_upto b ws k s) = [step_timer (Z.of_nat k)]).
  { intros k Hk. rewrite (touch_run_timers b ws s k Hi C) by lia.
    apply Nat.ltb_lt in Hk. now rewrite Hk. }
  split; [|split; [|split; [exact T|split]]].
  - intros. now rewrite sendTouchEvent_eq.
  - intros w element type x y s0 c Hc Ht. rewrite sendTouchEvent_eq. cbn [snd].
    destruct (throws w NewTouch) eqn:E1; [eauto|].
    destruct (throws w NewTouchEvent) eqn:E2; [eauto|].
    destruct (throws w DispatchEvent) eqn:E3; [eauto|].
    destruct Hc as [<-|[<-|[<-|[]]]]; congruence.
  - rewrite (touch_run_timers b ws s 5 Hi C) by lia. reflexivity.
  - intros k w Hk.
    assert (Hlt : (k < 5)%nat).
    { rewrite <- N. apply nth_error_Some. congruence. }
    assert (Ht : supportTouchEvent w = true).
    { apply nth_error_In in Hk. rewrite Forall_forall in Hw. now apply Hw. }
    pose proof (same_attachment_run (Click b :: map Timeout (firstn k ws)) s)
      as (_ & _ & _ & Ad & Ae & _).
    fold (run_upto b ws k s) in Ad, Ae.
    unfold dispatches_at.
    rewrite (run_upto_succ b ws k w s Hk).
    rewrite (timeout_eq w _ _ _ _ _ (T k Hlt)).
    rewrite dispatched_after_callback. unfold after_callback, schedule.
    cbn [nativeElement swipeDirection dispatched console set_timers].
    destruct (outcome_touch w Ht) as [E|(c & E & Hc)]; rewrite E.
    + left. eexists. rewrite Ae. split; [reflexivity|].
      now destruct (Z.of_nat k + 1 =? maxIterations).
    + right. exists c. split; [exact Hc|].
      destruct (Z.of_nat k + 1 =? maxIterations); cbn;
        now rewrite app_nil_r.
Qed.

Lemma touch_failure_does_not_abort_run_witness :
  let s := sample_attachment "end" in
  let ws := [touch_platform; illegal_constructor_platform; touch_platform;
             illegal_constructor_platform; touch_platform] in
  idle 2 s
  /\ Forall (fun w => supportTouchEvent w = true) ws
  /\ timers (run_upto 2 ws 2 s) = [step_timer 2]
  /\ timers (run_upto 2 ws 5 s) = []
  /\ List.length (dispatched (run_upto 2 ws 5 s)) = 3%nat
  /\ console (run_upto 2 ws 5 s) =
     [ErrorLog (PlatformExn NewTouch); ErrorLog (PlatformExn NewTouch)].
Proof.
  intros s ws.
  assert (Hi : idle 2 s) by (split; reflexivity).
  assert (Hw : Forall (fun w => supportTouchEvent w = true) ws)
    by (repeat constructor).
  destruct (touch_failure_does_not_abort_run s 2%nat ws Hi Hw eq_refl)
    as (_ & _ & T & T5 & _).
  split; [exact Hi|]. split; [exact Hw|].
  split; [exact (T 2%nat (le_S _ _ (le_S _ _ (le_n 3))))|]. split; [exact T5|].
  split; reflexivity.
Defined.

(** C9 (as amended).  A second click while the first run still has a timer
    pending neither cancels nor merges anything: right after it the timers
    of both runs are pending.  While no exception escapes a step, the ten
    steps of the two runs all execute, each run going through its steps 0
    to 4 in order, and then no timer is pending; each step writes its event
    or its logged exception.  When no platform call raises, ten events are
    dispatched. *)
Theorem overlapping_runs_are_independent
    (s : State) (b : Element) (ws1 ws2 : list Platform) :
  idle b s ->
  (List.length ws1 < 5)%nat ->
  (List.length ws1 + List.length ws2 = 10)%nat ->
  Forall continues (ws1 ++ ws2) ->
  let s' := run (Click b :: map Timeout ws1 ++ Click b :: map Timeout ws2) s in
  timers (run (Click b :: map Timeout ws1 ++ [Click b]) s) =
    [step_timer (Z.of_nat (List.length ws1)); step_timer 0]
  /\ timers s' = []
  /\ (exists steps,
        Interleaved [0; 1; 2; 3; 4] [0; 1; 2; 3; 4] steps
        /\ dispatched s' =
           dispatched s ++
           events_of (swipeDirection s) (nativeElement s)
             (combine steps (ws1 ++ ws2))
        /\ console s' = console s ++ entries_of (combine steps (ws1 ++ ws2)))
  /\ (Forall quiet (ws1 ++ ws2) ->
      exists new,
        appended s s' new /\ List.length new = 10%nat /\
        Interleaved
          [Some Start; Some Move; Some Move; Some Move; Some End]
          [Some Start; Some Move; Some Move; Some Move; Some End]
          (map (fun ev => phase_of (event_type (snd ev))) new)).
Proof.
  intros [Hl Ht] H1 H2 C s'.
  assert (Hq : timers s = map step_timer []) by exact Ht.
  apply Forall_app in C. destruct C as [C1 C2].
  destruct (overlap_trace b ws1 ws2 H1 H2 C1 C2) as (steps & T & I & Q & Q').
  assert (D : dispatched s' =
              dispatched s ++
              events_of (swipeDirection s) (nativeElement s)
                (combine steps (ws1 ++ ws2))).
  { unfold s'. now rewrite (run_dispatched _ [] s Hq), Hl, T. }
  split; [|split; [|split]].
  - now rewrite (run_timers _ [] s Hq), Hl, Q'.
  - unfold s'. now rewrite (run_timers _ [] s Hq), Hl, Q.
  - exists steps. split; [exact I|]. split; [exact D|].
    unfold s'. now rewrite (run_console _ [] s Hq), Hl, T.
  - intros Q10. eexists. split; [exact D|].
    rewrite events_of_quiet by now apply Forall_combine_snd.
    assert (L : List.length steps = List.length (ws1 ++ ws2)).
    { rewrite (Interleaved_length _ _ _ I), length_app, H2. reflexivity. }
    split.
    + now rewrite length_map, length_combine, <- L, Nat.min_id,
        (Interleaved_length _ _ _ I).
    + rewrite map_map. cbn [snd].
      rewrite (map_ext _ (fun x => Some (phase_at (fst x))))
        by (intros x; apply synthesized_phase).
      rewrite <- (map_map fst (fun i => Some (phase_at i))).
      rewrite (map_fst_combine _ _ L).
      apply (Interleaved_map (fun i => Some (phase_at i))) in I. exact I.
Qed.

Lemma overlapping_runs_are_independent_witness :
  let s := sample_attachment "end" in
  let ws1 := repeat touch_platform 2 in
  let ws2 := repeat touch_platform 8 in
  let s' := run (Click 2 :: map Timeout ws1 ++ Click 2 :: map Timeout ws2) s in
  idle 2 s /\ Forall continues (ws1 ++ ws2)
  /\ timers (run (Click 2 :: map Timeout ws1 ++ [Click 2]) s) =
       [step_timer 2; step_timer 0]
  /\ (exists new, appended s s' new /\ List.length new = 10%nat)
  /\ map (fun x => event_type (snd x)) (dispatched s') =
       ["touchstart"; "touchmove"; "touchmove"; "touchstart"; "touchmove";
        "touchmove"; "touchend"; "touchmove"; "touchmove"; "touchend"].
Proof.
  intros s ws1 ws2 s'.
  assert (Hi : idle 2 s) by (split; reflexivity).
  assert (Q : Forall quiet (ws1 ++ ws2)) by (repeat constructor).
  assert (C : Forall continues (ws1 ++ ws2))
    by (apply Forall_quiet_continues, Q).
  destruct (overlapping_runs_are_independent s 2%nat ws1 ws2 Hi
              (le_S _ _ (le_S _ _ (le_n 3))) eq_refl C)
    as (T & _ & _ & N).
  split; [exact Hi|]. split; [exact C|]. split; [exact T|].
  split; [|reflexivity].
  destruct (N Q) as (new & A & L & _). exists new. split; assumption.
Defined.

(** C9 as stated fails when [Touch] and [TouchEvent] are defined but the
    constructor of [Touch] raises: the ten steps of the two overlapping runs
    execute and log the exceptions they caught, and no event is dispatched. *)
Lemma overlapping_runs_without_events :
  let s := sample_attachment "end" in
  let ws1 := repeat illegal_constructor_platform 2 in
  let ws2 := repeat illegal_constructor_platform 8 in
  let s' := run (Click 2 :: map Timeout ws1 ++ Click 2 :: map Timeout ws2) s in
  timers (run (Click 2 :: map Timeout ws1 ++ [Click 2]) s) =
    [step_timer 2; step_timer 0]
  /\ dispatched s' = []
  /\ List.length (dispatched s') <> 10%nat
  /\ console s' = repeat (ErrorLog (PlatformExn NewTouch)) 10
  /\ timers s' = [].
Proof.
  cbv zeta. repeat split; try reflexivity. cbn. discriminate.
Qed.

(** * Further properties of the directive *)

(** X1.  With the container present, the setup never raises and its
    warnings about the options panels depend only on their number: none for
    exactly one panel, the missing-panel warning for none, the
    only-one-is-processed warning for two or more.  The direction it stores
    is [toLeft] when there is no panel and otherwise depends on the first
    panel alone. *)
Theorem setup_panel_warnings (s : State) (c : IonItemSliding) :
  itemSliding s = Some c ->
  let s' := snd (ngAfterViewInit s) in
  fst (ngAfterViewInit s) = Normal tt
  /\ (exists trigger_warning,
        console s' =
          console s ++ panel_warnings (itemOptionsList s) ++ trigger_warning
        /\ trigger_warning =
           match querySelector s button_selector with
           | None => [missing_trigger_warning]
           | Some _ => []
           end)
  /\ (itemOptionsList s = [] -> swipeDirection s' = Some toLeft)
  /\ (forall o rest,
        itemOptionsList s = o :: rest ->
        swipeDirection s' =
        Some (if String.eqb (side o) "start" then toRight else toLeft)).
Proof.
  intros H. cbn zeta. rewrite (ngAfterViewInit_eq s c H). cbn [fst snd].
  split; [reflexivity|]. split; [|split].
  - eexists. split; [|reflexivity].
    destruct (querySelector s button_selector); cbn.
    + now rewrite app_nil_r.
    + now rewrite app_assoc.
  - intros E. destruct (querySelector s button_selector); cbn;
      now rewrite E.
  - intros o rest E. destruct (querySelector s button_selector); cbn;
      now rewrite E.
Qed.

Lemma setup_panel_warnings_witness :
  let s := created (Some (IonItemSlidingRef 1))
             [{| side := "start" |}; {| side := "end" |}] 1
             (fun _ => Some 2%nat) in
  itemSliding s = Some (IonItemSlidingRef 1)
  /\ console (snd (ngAfterViewInit s)) =
     [Warn "RevealSlidingDirective: Processing only a one ion-item-options element"]
  /\ swipeDirection (snd (ngAfterViewInit s)) = Some toRight.
Proof.
  intros s.
  destruct (setup_panel_warnings s (IonItemSlidingRef 1) eq_refl)
    as (_ & _ & _ & D).
  split; [reflexivity|]. split; [reflexivity|].
  exact (D {| side := "start" |} [{| side := "end" |}] eq_refl).
Defined.

(** X2.  With the container present and the trigger element found, the setup
    completes normally, stores the trigger, and registers exactly one
    listener: a click listener on the trigger, after the listeners already
    there.  It starts no timer and dispatches nothing, so a directive set up
    from a state without listeners and timers is idle. *)
Theorem setup_registers_one_click_listener
    (s : State) (c : IonItemSliding) (b : Element) :
  itemSliding s = Some c ->
  querySelector s button_selector = Some b ->
  let s' := snd (ngAfterViewInit s) in
  fst (ngAfterViewInit s) = Normal tt
  /\ revealButton s' = Some b
  /\ listeners s' = listeners s ++ [click_listener b]
  /\ timers s' = timers s
  /\ dispatched s' = dispatched s
  /\ (listeners s = [] -> timers s = [] -> idle b s').
Proof.
  intros H Hq. cbn zeta. rewrite (ngAfterViewInit_eq s c H), Hq.
  cbn [fst snd]. repeat (split; [reflexivity|]).
  intros Hl Ht. split; cbn; [now rewrite Hl | exact Ht].
Qed.

Lemma setup_registers_one_click_listener_witness :
  let s := created (Some (IonItemSlidingRef 1)) [] 1 (fun _ => Some 2%nat) in
  itemSliding s = Some (IonItemSlidingRef 1)
  /\ querySelector s button_selector = Some 2%nat
  /\ idle 2 (snd (ngAfterViewInit s)).
Proof.
  intros s.
  destruct (setup_registers_one_click_listener s (IonItemSlidingRef 1) 2%nat
              eq_refl eq_refl) as (_ & _ & _ & _ & _ & I).
  split; [reflexivity|]. split; [reflexivity|].
  exact (I eq_refl eq_refl).
Defined.

(** X3.  Under the mouse strategy a raising platform call is not caught:
    [sendMouseEvent] completes abruptly and writes nothing.  In a run, the
    step at which this happens dispatches nothing, its exception escapes the
    timer callback, and the next step is never scheduled: no timer is pending
    and further expiries change nothing. *)
Theorem mouse_failure_aborts_run
    (s : State) (b : Element) (ws : list Platform) (k : nat) (w : Platform) :
  idle b s ->
  Forall continues (firstn k ws) ->
  (k < 5)%nat ->
  nth_error ws k = Some w ->
  supportTouchEvent w = false ->
  mouse_call_raises w = true ->
  (forall element type x y s0,
     exists c,
       throws w c = true /\
       sendMouseEvent w element type x y s0 = (Throw (PlatformExn c), s0))
  /\ (exists c,
        throws w c = true /\
        console (run_upto b ws (S k) s) =
          console (run_upto b ws k s) ++ [Uncaught (PlatformExn c)])
  /\ dispatched (run_upto b ws (S k) s) = dispatched (run_upto b ws k s)
  /\ timers (run_upto b ws (S k) s) = []
  /\ (forall more,
        run (map Timeout more) (run_upto b ws (S k) s) =
        run_upto b ws (S k) s).
Proof.
  intros Hi C Hk Hw Hs Hr.
  assert (Hlen : (k < List.length ws)%nat)
    by (apply nth_error_Some; congruence).
  pose proof (single_run_timers_at b ws k s Hi C Hk Hlen) as T.
  destruct (outcome_mouse_raises w Hs Hr) as (c & E & Hc).
  assert (S1 : run_upto b ws (S k) s =
               log_console (Uncaught (PlatformExn c))
                 (set_timers [] (run_upto b ws k s))).
  { rewrite (run_upto_succ b ws k w s Hw), (timeout_eq w _ _ _ _ _ T).
    unfold after_callback. now rewrite E. }
  split; [|split; [|split; [|split]]].
  - intros element type x y s0. rewrite sendMouseEvent_eq.
    unfold mouse_call_raises in Hr.
    destruct (throws w CreateEvent) eqn:E1; [eauto|].
    destruct (throws w InitMouseEvent) eqn:E2; [eauto|].
    destruct (throws w DispatchEvent) eqn:E3; [eauto|discriminate].
  - exists c. split; [exact Hc|]. now rewrite S1.
  - now rewrite S1.
  - now rewrite S1.
  - intros more. apply run_timeouts_idle. now rewrite S1.
Qed.

Lemma mouse_failure_aborts_run_witness :
  let broken :=
    {| typeofTouch := false; typeofTouchEvent := false;
       boundingClientRect := sample_rect; dateNow := 0;
       throws := fun c => match c with DispatchEvent => true | _ => false end |} in
  let s := sample_attachment "end" in
  let ws := [mouse_platform; mouse_platform; broken; mouse_platform;
             mouse_platform] in
  idle 2 s
  /\ mouse_call_raises broken = true
  /\ timers (run_upto 2 ws 3 s) = []
  /\ List.length (dispatched (run_upto 2 ws 5 s)) = 2%nat
  /\ console (run_upto 2 ws 5 s) = [Uncaught (PlatformExn DispatchEvent)].
Proof.
  intros broken s ws.
  assert (Hi : idle 2 s) by (split; reflexivity).
  assert (C : Forall continues (firstn 2 ws)).
  { apply Forall_quiet_continues. repeat constructor. }
  destruct (mouse_failure_aborts_run s 2%nat ws 2%nat broken Hi C
              (le_S _ _ (le_S _ _ (le_n 3))) eq_refl eq_refl eq_refl)
    as (_ & _ & _ & T & _).
  split; [exact Hi|]. split; [reflexivity|]. split; [exact T|].
  split; reflexivity.
Defined.

(** X4.  In every state reached from an idle directive by clicks and timer
    expiries, each pending timer is the callback of a step between 0 and 4,
    registered with the delay 10 and the limit 5. *)
Theorem pending_timers_stay_in_range
    (s : State) (b : Element) (inputs : list Input) :
  idle b s ->
  Forall (fun t => exists index,
            0 <= index <= 4 /\
            t = {| t_callback := SendEventsStep index 5; t_delay := 10 |})
         (timers (run inputs s)).
Proof.
  intros [Hl Ht].
  assert (Hq : timers s = map step_timer []) by exact Ht.
  rewrite (run_timers inputs [] s Hq).
  pose proof (queue_after_in_range (listeners s) inputs [] (Forall_nil _)) as R.
  apply Forall_forall. intros t Hin.
  apply in_map_iff in Hin. destruct Hin as (index & <- & Hin).
  unfold in_range in R. rewrite Forall_forall in R.
  specialize (R index Hin). unfold maxIterations in R.
  exists index. split; [lia|reflexivity].
Qed.

Lemma pending_timers_stay_in_range_witness :
  let s := sample_attachment "end" in
  let inputs := [Click 2; Timeout touch_platform; Click 2;
                 Timeout illegal_constructor_platform] in
  idle 2 s
  /\ timers (run inputs s) = [step_timer 0; step_timer 2]
  /\ Forall (fun t => exists index,
               0 <= index <= 4 /\
               t = {| t_callback := SendEventsStep index 5; t_delay := 10 |})
            (timers (run inputs s)).
Proof.
  intros s inputs.
  assert (Hi : idle 2 s) by (split; reflexivity).
  split; [exact Hi|]. split; [reflexivity|].
  exact (pending_timers_stay_in_range s 2%nat inputs Hi).
Defined.

(** X5.  Every run ends: after any clicks of the user and timer expiries on
    an idle directive, five more expiries for each time a click reached the
    trigger leave no timer pending, whatever the platform does at each
    step. *)
Theorem pending_runs_terminate
    (s : State) (b : Element) (us : list UserInput) (ws : list Platform) :
  idle b s ->
  (5 * trigger_clicks b us <= List.length ws)%nat ->
  timers (run (deliver us ++ map Timeout ws) s) = [].
Proof.
  intros [Hl Ht] Hn.
  assert (Hq : timers s = map step_timer []) by exact Ht.
  rewrite run_app.
  pose proof (run_timers (deliver us) [] s Hq) as T1.
  pose proof (same_attachment_run (deliver us) s)
    as (_ & _ & _ & _ & _ & _ & L).
  rewrite (run_timers _ _ _ T1), L.
  pose proof (queue_after_in_range (listeners s) (deliver us) []
                (Forall_nil _)) as R.
  destruct (work_balance (listeners s) (deliver us) [] (Forall_nil _))
    as [B _].
  rewrite Hl, started_click_listener, clicks_on_deliver in B.
  rewrite Hl in R |- *.
  rewrite queue_drains; [reflexivity|exact R|].
  change (work []) with 0 in B. lia.
Qed.

Lemma pending_runs_terminate_witness :
  let s := sample_attachment "end" in
  let us := [UserClick [3; 2; 1]; TimerExpiry touch_platform;
             UserClick [2; 1]; UserClick [1]]%nat in
  idle 2 s
  /\ trigger_clicks 2 us = 2%nat
  /\ timers (run (deliver us) s) = [step_timer 1; step_timer 0]
  /\ timers (run (deliver us ++ map Timeout (repeat mouse_platform 10)) s) = [].
Proof.
  intros s us.
  assert (Hi : idle 2 s) by (split; reflexivity).
  split; [exact Hi|]. split; [reflexivity|]. split; [reflexivity|].
  apply (pending_runs_terminate s 2%nat us (repeat mouse_platform 10) Hi).
  apply le_n.
Defined.

(** X6.  Whatever the user and the platform do, an idle directive writes at
    most five records for each time a click reaches its trigger, a record
    being a dispatched event or a console entry: a click on the trigger or on
    a descendant of it accounts for at most five, a click elsewhere and an
    expiry with no timer pending for none. *)
Theorem at_most_five_records_per_click
    (s : State) (b : Element) (us : list UserInput) :
  idle b s ->
  exists new entries,
    appended s (run (deliver us) s) new
    /\ console (run (deliver us) s) = console s ++ entries
    /\ (List.length new + List.length entries <= 5 * trigger_clicks b us)%nat.
Proof.
  intros [Hl Ht].
  assert (Hq : timers s = map step_timer []) by exact Ht.
  eexists _, _. split; [apply (run_dispatched (deliver us) [] s Hq)|].
  split; [apply (run_console (deliver us) [] s Hq)|].
  rewrite records_of_length.
  destruct (work_balance (listeners s) (deliver us) [] (Forall_nil _))
    as [B _].
  pose proof (work_nonneg _
                (queue_after_in_range (listeners s) (deliver us) []
                   (Forall_nil _))).
  rewrite Hl, started_click_listener, clicks_on_deliver in B.
  rewrite Hl in *. change (work []) with 0 in B. lia.
Qed.

Lemma at_most_five_records_per_click_witness :
  let s := sample_attachment "end" in
  let us := (UserClick [1] :: UserClick [3; 2; 1] :: UserClick [4; 1]
               :: repeat (TimerExpiry illegal_constructor_platform) 9)%nat in
  idle 2 s
  /\ trigger_clicks 2 us = 1%nat
  /\ List.length (console (run (deliver us) s)) = 5%nat
  /\ exists new entries,
       appended s (run (deliver us) s) new
       /\ console (run (deliver us) s) = console s ++ entries
       /\ (List.length new + List.length entries <= 5 * 1)%nat.
Proof.
  intros s us.
  assert (Hi : idle 2 s) by (split; reflexivity).
  split; [exact Hi|]. split; [reflexivity|]. split; [reflexivity|].
  exact (at_most_five_records_per_click s 2%nat us Hi).
Defined.

(** X7.  When no exception escapes a step and no timer is pending after a
    sequence of clicks of the user and expiries on an idle directive,
    exactly five records have been written for each time a click reached
    the trigger, however the runs overlapped; when no platform call raised
    at all, these are five dispatched events each and the console is
    untouched. *)
Theorem five_records_per_click_at_rest
    (s : State) (b : Element) (us : list UserInput) :
  idle b s ->
  (forall w, In (TimerExpiry w) us -> continues w) ->
  timers (run (deliver us) s) = [] ->
  exists new entries,
    appended s (run (deliver us) s) new
    /\ console (run (deliver us) s) = console s ++ entries
    /\ (List.length new + List.length entries = 5 * trigger_clicks b us)%nat
    /\ ((forall w, In (TimerExpiry w) us -> quiet w) ->
        entries = [] /\ List.length new = (5 * trigger_clicks b us)%nat).
Proof.
  intros [Hl Ht] C T.
  assert (Hq : timers s = map step_timer []) by exact Ht.
  rewrite (run_timers (deliver us) [] s Hq) in T. apply map_eq_nil in T.
  destruct (work_balance (listeners s) (deliver us) [] (Forall_nil _))
    as [_ B].
  specialize (B (fun w Hw => C w (timeout_in_deliver w us Hw))).
  rewrite T in B.
  rewrite Hl, started_click_listener, clicks_on_deliver in B.
  change (work []) with 0 in B.
  assert (N : List.length (trace (listeners s) [] (deliver us)) =
              (5 * trigger_clicks b us)%nat) by (rewrite Hl; lia).
  eexists _, _. split; [apply (run_dispatched (deliver us) [] s Hq)|].
  split; [apply (run_console (deliver us) [] s Hq)|].
  split; [now rewrite records_of_length|].
  intros Q.
  pose proof (trace_quiet (listeners s) [] (deliver us)
                (fun w Hw => Q w (timeout_in_deliver w us Hw))) as QT.
  split; [now apply entries_of_quiet|].
  rewrite events_of_quiet by exact QT. now rewrite length_map.
Qed.

Lemma five_records_per_click_at_rest_witness :
  let s := sample_attachment "end" in
  let us := (UserClick [3; 2; 1] :: UserClick [2; 1]
               :: TimerExpiry touch_platform :: UserClick [5; 3; 2; 1]
               :: UserClick [4; 1]
               :: repeat (TimerExpiry mouse_platform) 14)%nat in
  idle 2 s
  /\ trigger_clicks 2 us = 3%nat
  /\ timers (run (deliver us) s) = []
  /\ exists new,
       appended s (run (deliver us) s) new /\ List.length new = 15%nat.
Proof.
  intros s us.
  assert (Hi : idle 2 s) by (split; reflexivity).
  assert (Q : forall w, In (TimerExpiry w) us -> quiet w).
  { intros w Hw. cbn in Hw.
    repeat (destruct Hw as [Hw|Hw];
            [first [discriminate Hw | injection Hw as <-; intros c; reflexivity]|]).
    contradiction. }
  destruct (five_records_per_click_at_rest s 2%nat us Hi
              (fun w Hw => continues_quiet w (Q w Hw)) eq_refl)
    as (new & entries & A & _ & _ & F).
  split; [exact Hi|]. split; [reflexivity|]. split; [reflexivity|].
  exists new. split; [exact A|]. exact (proj2 (F Q)).
Defined.

(** X8.  Every step reads the platform afresh.  An event dispatched by step
    [k] of a run is built from the snapshot of that very expiry: it is a
    touch event exactly when both [Touch] and [TouchEvent] are defined under
    that snapshot, its type is the entry chosen for step [k] from the touch
    triple in that case and from the mouse triple otherwise, its contact
    points are computed from that snapshot's bounding box, and the
    identifier handed to the [Touch] constructor is that snapshot's clock.
    Such an event is dispatched whenever no call raises under that snapshot
    and the run has come that far. *)
Theorem each_step_reads_its_own_snapshot
    (s : State) (b : Element) (ws : list Platform) (k : nat) :
  idle b s ->
  (forall tgt e,
     dispatches_at b ws s k tgt e ->
     exists w,
       nth_error ws k = Some w
       /\ is_touch e = typeofTouch w && typeofTouchEvent w
       /\ event_type e =
          array_get
            (if typeofTouch w && typeofTouchEvent w
             then touchEvents else mouseEvents)
            (slot (Z.of_nat k) maxIterations)
       /\ Forall (eq (point (swipeDirection s) (boundingClientRect w)
                        (Z.of_nat k)))
            (event_points e)
       /\ Forall (eq (dateNow w)) (event_identifiers e))
  /\ (forall w,
        nth_error ws k = Some w -> (k < 5)%nat ->
        Forall continues (firstn k ws) -> quiet w ->
        exists e, dispatches_at b ws s k (nativeElement s) e).
Proof.
  intros Hi. split.
  - intros tgt e H.
    destruct (dispatches_at_inv b ws s k tgt e Hi H)
      as (w & Hw & _ & _ & _ & ->).
    exists w. split; [exact Hw|].
    split; [apply synthesized_is_touch|].
    split; [apply synthesized_type|].
    split; [apply synthesized_points|apply synthesized_identifiers].
  - intros w Hw Hk C Q. eexists.
    apply (step_dispatches b ws s k w Hi C Hk Hw). now apply outcome_quiet.
Qed.

Lemma each_step_reads_its_own_snapshot_witness :
  let s := sample_attachment "end" in
  let ws := [touch_platform; subpixel_platform; touch_platform] in
  let e1 := mouse_event "mousemove" (rounded 2481 (-3), rounded 881 (-3)) in
  let e2 := touch_event touch_platform 1 "touchmove"
              (number_of_Z 260, number_of_Z 110) in
  idle 2 s
  /\ dispatches_at 2 ws s 1 1 e1
  /\ dispatches_at 2 ws s 2 1 e2
  /\ (exists w,
        nth_error ws 1 = Some w
        /\ is_touch e1 = typeofTouch w && typeofTouchEvent w
        /\ Forall (eq (point (swipeDirection s) (boundingClientRect w) 1))
             (event_points e1))
  /\ (exists w,
        nth_error ws 2 = Some w
        /\ is_touch e2 = typeofTouch w && typeofTouchEvent w
        /\ Forall (eq (dateNow w)) (event_identifiers e2)).
Proof.
  intros s ws e1 e2.
  assert (Hi : idle 2 s) by (split; reflexivity).
  assert (H1 : dispatches_at 2 ws s 1 1 e1) by reflexivity.
  assert (H2 : dispatches_at 2 ws s 2 1 e2) by reflexivity.
  split; [exact Hi|]. split; [exact H1|]. split; [exact H2|]. split.
  - destruct (proj1 (each_step_reads_its_own_snapshot s 2%nat ws 1%nat Hi)
                1%nat e1 H1) as (w & Hw & Ht & _ & Hp & _).
    exists w. repeat split; assumption.
  - destruct (proj1 (each_step_reads_its_own_snapshot s 2%nat ws 2%nat Hi)
                1%nat e2 H2) as (w & Hw & Ht & _ & _ & Hd).
    exists w. repeat split; assumption.
Defined.

(** X9.  Every event appended by any sequence of clicks and expiries goes to
    the host element of the directive, never to the trigger, and has the
    shape the synthesizers give it: a touch event bubbles, is cancelable and
    carries a single contact, targeted at the host, in both [touches] and
    [changedTouches], with radii 2.5, rotation 10 and force 0.5; a mouse
    event bubbles, is cancelable, and has the left button, zero detail and
    screen position, and no related target. *)
Theorem events_go_to_host_with_fixed_shape
    (s : State) (q : list Z) (inputs : list Input) :
  timers s = map step_timer q ->
  exists new,
    appended s (run inputs s) new
    /\ Forall (fun ev => fst ev = nativeElement s
                         /\ shaped_for (nativeElement s) (snd ev)) new.
Proof.
  intros H. destruct (run_appended inputs q s H) as (new & A & F).
  exists new. split; [exact A|].
  eapply Forall_impl; [|exact F].
  intros ev (w & index & _ & ->). cbn [fst snd].
  split; [reflexivity|apply synthesized_shaped].
Qed.

Lemma events_go_to_host_with_fixed_shape_witness :
  let s := sample_attachment "start" in
  let inputs := Click 2 :: repeat (Timeout touch_platform) 3 in
  timers s = map step_timer []
  /\ exists new,
       appended s (run inputs s) new /\ List.length new = 3%nat
       /\ Forall (fun ev => fst ev = 1%nat /\ shaped_for 1 (snd ev)) new.
Proof.
  intros s inputs. split; [reflexivity|].
  destruct (events_go_to_host_with_fixed_shape s [] inputs eq_refl)
    as (new & A & F).
  exists new. split; [exact A|]. split; [|exact F].
  unfold appended in A. cbn in A. now subst new.
Defined.

(** X10.  A run of five expiries during which no platform call raises
    changes nothing but the dispatched events: the state after it is the
    state before it with five events appended.  The directive is idle again,
    so the next click starts a run of the same kind. *)
Theorem full_run_leaves_only_events
    (s : State) (b : Element) (ws : list Platform) :
  idle b s ->
  Forall quiet ws ->
  List.length ws = 5%nat ->
  exists new,
    run (Click b :: map Timeout ws) s = set_dispatched (dispatched s ++ new) s
    /\ List.length new = 5%nat
    /\ idle b (run (Click b :: map Timeout ws) s).
Proof.
  intros [Hl Ht] Q N.
  assert (Hq : timers s = map step_timer []) by exact Ht.
  assert (C : Forall continues ws) by now apply Forall_quiet_continues.
  assert (QT : Forall (fun x => quiet (snd x)) (combine [0; 1; 2; 3; 4] ws))
    by now apply Forall_combine_snd.
  assert (E : run (Click b :: map Timeout ws) s =
              set_dispatched
                (dispatched s ++
                 events_of (swipeDirection s) (nativeElement s)
                   (combine [0; 1; 2; 3; 4] ws)) s).
  { rewrite (run_queue _ [] s Hq), Hl.
    rewrite single_run_trace, single_run_queue by exact C.
    rewrite N, replay_eq, (entries_of_quiet _ QT), app_nil_r.
    cbn [Nat.ltb Nat.leb map]. destruct s. cbn in *. now subst. }
  eexists. split; [exact E|]. split.
  - rewrite events_of_quiet by exact QT.
    now rewrite length_map, length_combine, N.
  - rewrite E. split; assumption.
Qed.

Lemma full_run_leaves_only_events_witness :
  let s := sample_attachment "end" in
  let ws := repeat mouse_platform 5 in
  let once := run (Click 2 :: map Timeout ws) s in
  let twice := run (Click 2 :: map Timeout ws) once in
  idle 2 s /\ Forall quiet ws
  /\ idle 2 once
  /\ List.length (dispatched twice) = 10%nat.
Proof.
  intros s ws once twice.
  assert (Hi : idle 2 s) by (split; reflexivity).
  assert (Q : Forall quiet ws) by (repeat constructor).
  destruct (full_run_leaves_only_events s 2%nat ws Hi Q eq_refl)
    as (new & _ & _ & I).
  split; [exact Hi|]. split; [exact Q|]. split; [exact I|reflexivity].
Defined.

(** X11.  The recursion stops only on the index 5 itself: [sendEvents]
    called with a larger index schedules a timer, and as long as no
    exception escapes, each expiry schedules the next index, so a timer
    stays pending after any number of expiries.  The statement covers the
    indices up to 2^53, below which incrementing a number is exact. *)
Theorem sendEvents_beyond_limit_never_stops
    (s : State) (index : Z) (ws : list Platform) :
  5 < index ->
  index + Z.of_nat (List.length ws) <= 2 ^ 53 ->
  timers s = [] ->
  Forall continues ws ->
  timers (run (map Timeout ws) (snd (sendEvents index s))) =
  [{| t_callback :=
        SendEventsStep (index + Z.of_nat (List.length ws)) 5;
      t_delay := 10 |}].
Proof.
  intros Hi _ Ht C. rewrite sendEvents_eq. cbn [snd]. unfold schedule.
  replace (index =? maxIterations) with false
    by (symmetry; apply Z.eqb_neq; unfold maxIterations; lia).
  rewrite (run_timers _ [index]) by (cbn; now rewrite Ht).
  rewrite queue_after_beyond;
    [reflexivity | unfold maxIterations; lia | exact C].
Qed.

Lemma sendEvents_beyond_limit_never_stops_witness :
  let s := sample_attachment "end" in
  timers s = []
  /\ timers (run (map Timeout (repeat touch_platform 20))
               (snd (sendEvents 6 s))) =
     [{| t_callback := SendEventsStep 26 5; t_delay := 10 |}].
Proof.
  intros s. split; [reflexivity|].
  apply (sendEvents_beyond_limit_never_stops s 6 (repeat touch_platform 20)).
  - reflexivity.
  - discriminate.
  - reflexivity.
  - apply Forall_quiet_continues. repeat constructor.
Defined.
